(** * ActiveBrownian: the state-evolution engine and the parameter checks

    A shallow embedding of [src/src/state.cpp] (both revisions that the file
    holds, each with its scalar and its MKL build) and of the two parameter
    checks of [src/simul.h].

    Conventions of the embedding.
    - A C++ [double] is read as a real number ([R]): arithmetic is exact, so
      a statement "equal up to rounding" becomes an equality and NaN and
      infinities have no counterpart.
    - A [long] used as a particle or box index is a [nat]; a [long] that is
      compared with zero (the parameter checks) is a [Z].
    - [std::vector<double>] is a [list R]; [v[i] += e] is [upd i], which
      leaves the list alone when [i] is out of range (C++ gives no meaning
      to that access).
    - The random engine is a stream of unit variates with a read position;
      a distribution object turns the next variate into a sample. *)

From Stdlib Require Import String Reals Lra Lia ZArith Bool Arith List.
Import ListNotations.
Open Scope R_scope.

(* ================================================================= *)
(** ** simul.h: parameter checks *)

Module Simul.

(** What a check leaves behind: the returned flag and the lines it wrote
    to [std::cerr]. *)
Definition checked : Type := (bool * list string)%type.

(** The operations of the template parameter [T] that the two checks use:
    [T(0)], [a < b] and [a <= b]. *)
Class Comparable (T : Type) : Type := {
  zero : T;
  ltT : T -> T -> Prop;
  leT : T -> T -> Prop;
  ltT_dec : forall a b : T, {ltT a b} + {~ ltT a b};
  leT_dec : forall a b : T, {leT a b} + {~ leT a b}
}.

#[export] Instance Comparable_long : Comparable Z := {
  zero := 0%Z;
  ltT := Z.lt;
  leT := Z.le;
  ltT_dec := Z_lt_dec;
  leT_dec := Z_le_dec
}.

#[export] Instance Comparable_double : Comparable R := {
  zero := 0;
  ltT := Rlt;
  leT := Rle;
  ltT_dec := Rlt_dec;
  leT_dec := Rle_dec
}.

(** [template<typename T> bool notPositive(const T &a, std::string name)] *)
Definition notPositive {T : Type} `{Comparable T} (a : T) (name : string)
  : checked :=
  if ltT_dec a zero
  then (true, [("Error: " ++ name ++ " should be positive.")%string])
  else (false, []).

(** [template<typename T> bool notStrPositive(const T &a, std::string name)] *)
Definition notStrPositive {T : Type} `{Comparable T} (a : T) (name : string)
  : checked :=
  if leT_dec a zero
  then (true, [("Error: " ++ name ++ " should be strictly positive.")%string])
  else (false, []).

End Simul.

(* ================================================================= *)
(** ** Arrays of doubles *)

Definition vec : Type := list R.

(** [v[i]] *)
Definition get (v : vec) (i : nat) : R := nth i v 0.

(** [v[i] = f(v[i])]; nothing happens when [i] is out of range. *)
Fixpoint upd (i : nat) (f : R -> R) (v : vec) : vec :=
  match v, i with
  | [], _ => []
  | x :: v', O => f x :: v'
  | x :: v', S i' => x :: upd i' f v'
  end.

(** A library routine that writes [g 0 .. g (n-1)] over the first [n]
    entries of the output buffer [y] (the buffers of the program all have
    [n] entries). *)
Definition store (n : nat) (g : nat -> R) (y : vec) : vec :=
  map g (seq 0 n) ++ skipn n y.

(** Sum of the entries. *)
Definition vsum (v : vec) : R := fold_right Rplus 0 v.

(* ================================================================= *)
(** ** Periodic wraps (state.h is not part of the sources) *)

(** Modelled from the spec: [pbc] of state.h, whose body is not in the
    sources.  "A canonical non-negative-result modulo": [x mod L] with the
    result in [[0, L)], written with the floor of the quotient. *)
Definition pbc (x L : R) : R := x - L * IZR (Int_part (x / L)).

(** Modelled from the spec: [pbcSym] of state.h, whose body is not in the
    sources.  The "signed"/centered wrap, "producing a result in
    [[-L/2, L/2)]". *)
Definition pbcSym (x L : R) : R := x - L * IZR (Int_part (x / L + / 2)).

(* ================================================================= *)
(** ** The cell list (boxes.h is not part of the sources) *)

(** The interface of class [Boxes] as state.cpp uses it: the constructor
    [boxes(_len, _n_parts)], [update(positions)] and the three getters. *)
Class BoxesImpl : Type := {
  Boxes : Type;
  Boxes_ctor : R -> nat -> Boxes;
  update : Boxes -> vec -> vec -> Boxes;
  getNBoxes : Boxes -> nat;
  getNbrsPos : Boxes -> list (list nat);
  getPartsOfBox : Boxes -> list (list nat)
}.

Module Grid.

(** Modelled from the spec: the cell list of boxes.h / boxes.cpp, which are
    not in the sources.  "A uniform grid of n_div_r x n_div_r cells covering
    [0,L)^2, cell side >= interaction cutoff" (cutoff 1): the finest such
    grid has [floor L] divisions. *)
Record t : Type := mk {
  g_len : R;
  g_n_parts : nat;
  g_n_div : nat;
  g_parts : list (list nat)
}.

Definition n_cells (g : t) : nat := (g_n_div g * g_n_div g)%nat.

Definition cell_side (g : t) : R := g_len g / INR (g_n_div g).

(** Modelled from the spec: "the integer cell coordinate
    (floor(x/cellsize), floor(y/cellsize)) reduced modulo the grid
    dimensions". *)
Definition cell_coord (g : t) (x : R) : nat :=
  Z.to_nat (Int_part (x / cell_side g) mod Z.of_nat (g_n_div g)).

(** Raster index of the cell with coordinates [(cx, cy)], both reduced
    modulo the grid dimension. *)
Definition raster (g : t) (cx cy : nat) : nat :=
  (cx mod g_n_div g + g_n_div g * (cy mod g_n_div g))%nat.

Definition cell_of (g : t) (x y : R) : nat :=
  raster g (cell_coord g x) (cell_coord g y).

(** Modelled from the spec: "its own cell plus the cells one step away in
    each periodic direction", as a half-stencil: the cell itself, its right
    neighbour and the three cells of the next row. *)
Definition stencil (g : t) (b : nat) : list nat :=
  let n := g_n_div g in
  let cx := (b mod n)%nat in
  let cy := (b / n)%nat in
  [ b;
    raster g (cx + 1) cy;
    raster g (cx + n - 1) (cy + 1);
    raster g cx (cy + 1);
    raster g (cx + 1) (cy + 1) ].

Definition ctor (len : R) (n_parts : nat) : t :=
  let n := Z.to_nat (Int_part len) in
  mk len n_parts n (repeat [] (n * n)).

(** Modelled from the spec: "build(positions) partitions all n particles
    into cells"; each cell owns the ordered list of its particles. *)
Definition rebuild (g : t) (p0 p1 : vec) : t :=
  mk (g_len g) (g_n_parts g) (g_n_div g)
     (map (fun b =>
             filter (fun i => cell_of g (get p0 i) (get p1 i) =? b)%nat
                    (seq 0 (g_n_parts g)))
          (seq 0 (n_cells g))).

Definition nbrs_pos (g : t) : list (list nat) :=
  map (stencil g) (seq 0 (n_cells g)).

#[export] Instance impl : BoxesImpl := {
  Boxes := t;
  Boxes_ctor := ctor;
  update := rebuild;
  getNBoxes := n_cells;
  getNbrsPos := nbrs_pos;
  getPartsOfBox := g_parts
}.

End Grid.

(* ================================================================= *)
(** ** Random numbers *)

(** [std::uniform_real_distribution<double>(a, b)] and [vdRngUniform] with
    bounds [a], [b], applied to the unit variate [u]. *)
Definition uniform_real (a b u : R) : R := a + (b - a) * u.

(** [std::normal_distribution<double>(mean, sd)] and [vdRngGaussian] with
    mean [a] and deviation [sigma], applied to the unit variate [z]. *)
Definition gaussian (mean sd z : R) : R := mean + sd * z.

(** A toy engine for concrete runs: the stream depends on the seed. *)
Definition toy_engine (seed : Z) (k : nat) : R :=
  if (seed =? 0)%Z then 0 else / 2.

(** The three compiled variants that state.cpp holds: the scalar build
    (the same text in both revisions), the MKL build of the first revision
    and the MKL build of the second one. *)
Inductive Build : Type := Scalar | MklRev1 | MklRev2.

(** The arrays of a [State]. In the second revision the three auxiliary
    buffers are called [ran_num_x], [ran_num_y] and [ran_num_angle]. *)
Inductive Buf : Type :=
  Pos0 | Pos1 | Angles | Forces0 | Forces1 | AuxX | AuxY | AuxAngle.

(* ================================================================= *)
(** ** state.cpp: class State *)

(** The members of [State].  [positions] and [forces] are arrays of two
    vectors (x and y components).  [stddev_temp] and [stddev_rot] are
    members in the MKL builds and the deviations held by the distribution
    objects [noiseTemp] and [noiseAngle] in the scalar build.  [rng] with
    [rng_pos] is the engine ([rng], or the MKL [stream]). *)
Record State {BI : BoxesImpl} : Type := mkState {
  len : R;
  n_parts : nat;
  pot_strength : R;
  activity : R;
  dt : R;
  boxes : Boxes;
  stddev_temp : R;
  stddev_rot : R;
  rng : nat -> R;
  rng_pos : nat;
  positions0 : vec;
  positions1 : vec;
  angles : vec;
  forces0 : vec;
  forces1 : vec;
  aux_x : vec;
  aux_y : vec;
  aux_angle : vec
}.

Arguments mkState {BI}.

Section Engine.

Context {BI : BoxesImpl}.

(** The seeded engine of the C++ library: from a seed to its stream of
    unit variates. *)
Variable engine : Z -> nat -> R.

Definition rd (b : Buf) (st : State) : vec :=
  match b with
  | Pos0 => positions0 st | Pos1 => positions1 st | Angles => angles st
  | Forces0 => forces0 st | Forces1 => forces1 st
  | AuxX => aux_x st | AuxY => aux_y st | AuxAngle => aux_angle st
  end.

Definition wr (b : Buf) (v : vec) (st : State) : State :=
  let '(mkState l n k a d bx st_ sr r rp p0 p1 an f0 f1 ax ay aa) := st in
  match b with
  | Pos0 => mkState l n k a d bx st_ sr r rp v p1 an f0 f1 ax ay aa
  | Pos1 => mkState l n k a d bx st_ sr r rp p0 v an f0 f1 ax ay aa
  | Angles => mkState l n k a d bx st_ sr r rp p0 p1 v f0 f1 ax ay aa
  | Forces0 => mkState l n k a d bx st_ sr r rp p0 p1 an v f1 ax ay aa
  | Forces1 => mkState l n k a d bx st_ sr r rp p0 p1 an f0 v ax ay aa
  | AuxX => mkState l n k a d bx st_ sr r rp p0 p1 an f0 f1 v ay aa
  | AuxY => mkState l n k a d bx st_ sr r rp p0 p1 an f0 f1 ax v aa
  | AuxAngle => mkState l n k a d bx st_ sr r rp p0 p1 an f0 f1 ax ay v
  end.

Definition set_boxes (bx : Boxes) (st : State) : State :=
  let '(mkState l n k a d _ st_ sr r rp p0 p1 an f0 f1 ax ay aa) := st in
  mkState l n k a d bx st_ sr r rp p0 p1 an f0 f1 ax ay aa.

(** The engine moves on by [k] variates. *)
Definition advance (k : nat) (st : State) : State :=
  let '(mkState l n kk a d bx st_ sr r rp p0 p1 an f0 f1 ax ay aa) := st in
  mkState l n kk a d bx st_ sr r (rp + k) p0 p1 an f0 f1 ax ay aa.

(** The variate the engine delivers [k] draws from now. *)
Definition variate (st : State) (k : nat) : R := rng st (rng_pos st + k)%nat.

(** [buf[i] = e], [buf[i] += e] and [buf[i] -= e]. *)
Definition assign_at (b : Buf) (i : nat) (e : R) (st : State) : State :=
  wr b (upd i (fun _ => e) (rd b st)) st.

Definition add_to (b : Buf) (i : nat) (e : R) (st : State) : State :=
  wr b (upd i (fun x => x + e) (rd b st)) st.

Definition sub_from (b : Buf) (i : nat) (e : R) (st : State) : State :=
  wr b (upd i (fun x => x - e) (rd b st)) st.

(** *** MKL routines on the arrays of the state *)

(** [vdSinCos(n, a, y, z)]: [y = sin a], [z = cos a]. *)
Definition vdSinCos (n : nat) (a y z : Buf) (st : State) : State :=
  let src := rd a st in
  let st := wr y (store n (fun i => sin (get src i)) (rd y st)) st in
  wr z (store n (fun i => cos (get src i)) (rd z st)) st.

(** [cblas_dscal(n, alpha, x, 1)]: [x = alpha * x]. *)
Definition cblas_dscal (n : nat) (alpha : R) (x : Buf) (st : State) : State :=
  let src := rd x st in
  wr x (store n (fun i => alpha * get src i) src) st.

(** [vdAdd(n, a, b, y)]: [y = a + b]. *)
Definition vdAdd (n : nat) (a b y : Buf) (st : State) : State :=
  let va := rd a st in
  let vb := rd b st in
  wr y (store n (fun i => get va i + get vb i) (rd y st)) st.

(** [vdRngGaussian(method, stream, n, r, a, sigma)]: [n] draws. *)
Definition vdRngGaussian (n : nat) (r : Buf) (a sigma : R) (st : State)
  : State :=
  advance n
    (wr r (store n (fun i => gaussian a sigma (variate st i)) (rd r st)) st).

(** [vdRngUniform(method, stream, n, r, a, b)]: [n] draws. *)
Definition vdRngUniform (n : nat) (r : Buf) (a b : R) (st : State) : State :=
  advance n
    (wr r (store n (fun i => uniform_real a b (variate st i)) (rd r st)) st).

(** *** The constructor [State::State] *)

(** One turn of the scalar loop (lines 89-95 and 292-298).  [forces[i] = 0]
    and [forces[n_parts + i] = 0] address the force storage by a flat index
    [c * n_parts + i]: component [c] of particle [i]. *)
Definition ctor_body (st : State) (i : nat) : State :=
  let st := advance 1
              (assign_at Pos0 i (uniform_real 0 (len st) (variate st 0)) st) in
  let st := advance 1
              (assign_at Pos1 i (uniform_real 0 (len st) (variate st 0)) st) in
  let st := advance 1
              (assign_at Angles i
                 (uniform_real 0 (2 * PI) (variate st 0)) st) in
  let st := assign_at Forces0 i 0 st in
  assign_at Forces1 i 0 st.

(** [now] is the value of
    [std::chrono::system_clock::now().time_since_epoch().count()] read by
    the constructor: the only seed the engine gets. *)
Definition State_ctor (b : Build) (_len : R) (_n_parts : nat)
    (_pot_strength _temperature _rot_dif _activity _dt : R) (now : Z)
  : State :=
  let zeros := repeat 0 _n_parts in
  let aux := match b with Scalar => [] | _ => zeros end in
  let st :=
    mkState _len _n_parts _pot_strength _activity _dt
            (Boxes_ctor _len _n_parts)
            (sqrt (2 * _temperature * _dt))
            (sqrt (2 * _rot_dif * _dt))
            (engine now) 0
            zeros zeros zeros zeros zeros aux aux aux in
  match b with
  | Scalar => fold_left ctor_body (seq 0 _n_parts) st
  | MklRev1 =>
      let st := vdRngUniform _n_parts Pos0 0 _len st in
      let st := vdRngUniform _n_parts Pos1 0 _len st in
      vdRngUniform _n_parts Angles 0 (2 * PI) st
  | MklRev2 =>
      let st := vdRngUniform _n_parts Pos0 0 _len st in
      let st := vdRngUniform _n_parts Pos1 0 _len st in
      vdRngUniform _n_parts AuxAngle 0 (2 * PI) st
  end.

(** *** [State::calcInternalForces] *)

(** The minimum-image displacement of the pair and its squared length
    (lines 172-177). *)
Definition pair_dx (st : State) (i j : nat) : R :=
  pbcSym (get (positions0 st) i - get (positions0 st) j) (len st).

Definition pair_dy (st : State) (i j : nat) : R :=
  pbcSym (get (positions1 st) i - get (positions1 st) j) (len st).

Definition pair_dr2 (st : State) (i j : nat) : R :=
  pair_dx st i j * pair_dx st i j + pair_dy st i j * pair_dy st i j.

(** The loop body for the pair [(i, j)] (lines 172-188). *)
Definition pair_body (i j : nat) (st : State) : State :=
  let dx := pair_dx st i j in
  let dy := pair_dy st i j in
  let dr2 := dx * dx + dy * dy in
  if Rlt_dec 0 (dr2 * (1 - dr2)) then
    let u := pot_strength st * (1 / sqrt dr2 - 1) in
    let fx := u * dx in
    let fy := u * dy in
    let st := add_to Forces0 i fx st in
    let st := sub_from Forces0 j fx st in
    let st := add_to Forces1 i fy st in
    sub_from Forces1 j fy st
  else st.

(** Lines 156-159. *)
Definition zero_forces (st : State) : State :=
  fold_left (fun st i => assign_at Forces1 i 0 (assign_at Forces0 i 0 st))
            (seq 0 (n_parts st)) st.

(** The four nested loops (lines 168-192) over given tables. *)
Definition pair_loops (n_boxes : nat) (nbrs parts : list (list nat))
    (st : State) : State :=
  fold_left (fun st b1 =>
    fold_left (fun st b2 =>
      fold_left (fun st i =>
        fold_left (fun st j => pair_body i j st) (nth b2 parts []) st)
        (nth b1 parts []) st)
      (nth b1 nbrs []) st)
    (seq 0 n_boxes) st.

Definition calcInternalForces (st : State) : State :=
  let st := zero_forces st in
  let st := set_boxes (update (boxes st) (positions0 st) (positions1 st)) st in
  pair_loops (getNBoxes (boxes st)) (getNbrsPos (boxes st))
             (getPartsOfBox (boxes st)) st.

(** *** [State::enforcePBC] *)

(** One turn of the loop (lines 199-203). *)
Definition enforcePBC_body (st : State) (i : nat) : State :=
  let st := wr Pos0 (upd i (fun x => pbc x (len st)) (positions0 st)) st in
  let st := wr Pos1 (upd i (fun x => pbc x (len st)) (positions1 st)) st in
  wr Angles (upd i (fun x => pbc x (2 * PI)) (angles st)) st.

Definition enforcePBC (st : State) : State :=
  fold_left enforcePBC_body (seq 0 (n_parts st)) st.

(** *** [State::evolve] *)

(** One turn of the scalar loop (lines 130-145; lines 319-340 without
    USE_MKL). *)
Definition scalar_body (st : State) (i : nat) : State :=
  let s := sin (get (angles st) i) in
  let c := cos (get (angles st) i) in
  let st := add_to Pos0 i (dt st * (get (forces0 st) i + activity st * c)) st in
  let st := add_to Pos1 i (dt st * (get (forces1 st) i + activity st * s)) st in
  let st := advance 1
              (add_to Pos0 i (gaussian 0 (stddev_temp st) (variate st 0)) st) in
  let st := advance 1
              (add_to Pos1 i (gaussian 0 (stddev_temp st) (variate st 0)) st) in
  advance 1 (add_to Angles i (gaussian 0 (stddev_rot st) (variate st 0)) st).

(** One turn of the loop of the second revision with USE_MKL
    (lines 319-340). *)
Definition mkl2_body (st : State) (i : nat) : State :=
  let s := sin (get (angles st) i) in
  let c := cos (get (angles st) i) in
  let st := add_to Pos0 i (dt st * (get (forces0 st) i + activity st * c)) st in
  let st := add_to Pos1 i (dt st * (get (forces1 st) i + activity st * s)) st in
  let st := add_to Pos0 i (get (aux_x st) i) st in
  let st := add_to Pos1 i (get (aux_y st) i) st in
  add_to Angles i (get (aux_angle st) i) st.

(** The vectorised update of the first revision with USE_MKL
    (lines 108-127), call by call. *)
Definition mkl1_update (st : State) : State :=
  let n := n_parts st in
  let st := vdSinCos n Angles AuxY AuxX st in
  let st := cblas_dscal n (activity st) AuxX st in
  let st := cblas_dscal n (activity st) AuxY st in
  let st := vdAdd n AuxX Forces0 AuxX st in
  let st := vdAdd n AuxY Forces1 AuxY st in
  let st := cblas_dscal n (dt st) AuxX st in
  let st := cblas_dscal n (dt st) AuxY st in
  let st := vdAdd n Pos0 AuxX Pos0 st in
  let st := vdAdd n Pos1 AuxY Pos1 st in
  let st := vdRngGaussian n AuxX 0 (stddev_temp st) st in
  let st := vdRngGaussian n AuxY 0 (stddev_temp st) st in
  let st := vdRngGaussian n AuxAngle 0 (stddev_rot st) st in
  let st := vdAdd n Pos0 AuxX Pos0 st in
  let st := vdAdd n Pos1 AuxY Pos1 st in
  vdAdd n Angles AuxX Angles st.

(** The draws that the second revision makes before its loop
    (lines 311-316). *)
Definition mkl2_draws (st : State) : State :=
  let n := n_parts st in
  let st := vdRngGaussian n AuxX 0 (stddev_temp st) st in
  let st := vdRngGaussian n AuxY 0 (stddev_temp st) st in
  vdRngGaussian n AuxAngle 0 (stddev_rot st) st.

(** The update of positions and angles, between [calcInternalForces] and
    [enforcePBC]. *)
Definition integrate (b : Build) (st : State) : State :=
  match b with
  | Scalar => fold_left scalar_body (seq 0 (n_parts st)) st
  | MklRev1 => mkl1_update st
  | MklRev2 => fold_left mkl2_body (seq 0 (n_parts st)) (mkl2_draws st)
  end.

(** [evolve] up to, and without, the final [enforcePBC]. *)
Definition evolve_prewrap (b : Build) (st : State) : State :=
  integrate b (calcInternalForces st).

Definition evolve (b : Build) (st : State) : State :=
  enforcePBC (evolve_prewrap b st).

(** [m] calls of [evolve]. *)
Fixpoint evolve_n (b : Build) (m : nat) (st : State) : State :=
  match m with
  | O => st
  | S m' => evolve_n b m' (evolve b st)
  end.

(** *** Scenarios *)

(** A state with the particles put at given places and with a given random
    stream (the scenarios of the specification place particles by hand);
    every other member is as the constructor leaves it. *)
Definition placed (_len _pot_strength _temperature _rot_dif _activity _dt : R)
    (stream : nat -> R) (xs ys thetas : vec) : State :=
  let n := length xs in
  let zeros := repeat 0 n in
  mkState _len n _pot_strength _activity _dt (Boxes_ctor _len n)
          (sqrt (2 * _temperature * _dt)) (sqrt (2 * _rot_dif * _dt))
          stream 0 xs ys thetas zeros zeros zeros zeros zeros.

(** The members that no method writes. *)
Definition static (st : State) : R * nat * R * R * R * R * R :=
  (len st, n_parts st, pot_strength st, activity st, dt st,
   stddev_temp st, stddev_rot st).

(** The five arrays have one entry per particle. *)
Definition sized (st : State) : Prop :=
  length (positions0 st) = n_parts st /\
  length (positions1 st) = n_parts st /\
  length (angles st) = n_parts st /\
  length (forces0 st) = n_parts st /\
  length (forces1 st) = n_parts st.

(** *** The pair loop seen from the force arrays *)

(** The force [(fx, fy)] that the loop body adds to particle [i] and takes
    from particle [j]; zero when the test of line 179 fails. *)
Definition pair_force (st : State) (i j : nat) : R * R :=
  let dx := pair_dx st i j in
  let dy := pair_dy st i j in
  let dr2 := dx * dx + dy * dy in
  if Rlt_dec 0 (dr2 * (1 - dr2)) then
    let u := pot_strength st * (1 / sqrt dr2 - 1) in (u * dx, u * dy)
  else (0, 0).

(** The effect of one visit of the pair [p] on the two force arrays. *)
Definition apply_pair (st : State) (F : vec * vec) (p : nat * nat)
  : vec * vec :=
  let i := fst p in
  let j := snd p in
  let fx := fst (pair_force st i j) in
  let fy := snd (pair_force st i j) in
  (upd j (fun x => x - fx) (upd i (fun x => x + fx) (fst F)),
   upd j (fun x => x - fy) (upd i (fun x => x + fy) (snd F))).

(** A visit of two different particles (a particle paired with itself is
    at distance 0 and gets no force). *)
Definition offdiag (p : nat * nat) : bool := negb (fst p =? snd p)%nat.

(** How often the loops visit the ordered pair [(i, j)], and how often a
    cell lists the particle [i]. *)
Definition visit_count (i j : nat) (l : list (nat * nat)) : nat :=
  length (filter (fun p => (fst p =? i) && (snd p =? j))%nat l).

Definition occ (i : nat) (l : list nat) : nat :=
  length (filter (fun a => a =? i)%nat l).

(** The loop that zeroes an array entry by entry. *)
Definition zeroed (l : list nat) (v : vec) : vec :=
  fold_left (fun v i => upd i (fun _ => 0) v) l v.

(** *** The integration step of the specification *)

(** The explicit Euler-Maruyama update of particle [i], read in the state
    [st] before the step, with the noise values [xi] and [eta]. *)
Definition euler_x (st : State) (i : nat) (xi : R) : R :=
  get (positions0 st) i
  + dt st * (get (forces0 st) i + activity st * cos (get (angles st) i)) + xi.

Definition euler_y (st : State) (i : nat) (xi : R) : R :=
  get (positions1 st) i
  + dt st * (get (forces1 st) i + activity st * sin (get (angles st) i)) + xi.

Definition euler_theta (st : State) (i : nat) (eta : R) : R :=
  get (angles st) i + eta.

(** Which variate of the engine, counted from its position at the start of
    the step, each build adds to x, to y and to the angle of particle [i] of
    [n], and the deviation it gives the angle noise. *)
Definition draw_x (b : Build) (n i : nat) : nat :=
  match b with Scalar => 3 * i | MklRev1 | MklRev2 => i end.

Definition draw_y (b : Build) (n i : nat) : nat :=
  match b with Scalar => 3 * i + 1 | MklRev1 | MklRev2 => n + i end.

Definition draw_theta (b : Build) (n i : nat) : nat :=
  match b with
  | Scalar => 3 * i + 2
  | MklRev1 => i
  | MklRev2 => n + n + i
  end.

Definition dev_theta (b : Build) (st : State) : R :=
  match b with
  | Scalar | MklRev2 => stddev_rot st
  | MklRev1 => stddev_temp st
  end.

(** Two states that agree on everything a later step reads, their random
    streams on the first [N] variates only. (The auxiliary buffers are
    written before they are read.) *)
Definition agree (N : nat) (s1 s2 : State) : Prop :=
  static s1 = static s2 /\ boxes s1 = boxes s2 /\
  rng_pos s1 = rng_pos s2 /\
  positions0 s1 = positions0 s2 /\ positions1 s1 = positions1 s2 /\
  angles s1 = angles s2 /\
  forces0 s1 = forces0 s2 /\ forces1 s1 = forces1 s2 /\
  (forall j, (j < N)%nat -> rng s1 j = rng s2 j).

(** *** Reference computations, written from the specification *)

(** The ordered pairs that the four loops visit, in order. *)
Definition pairs_visited (n_boxes : nat) (nbrs parts : list (list nat))
  : list (nat * nat) :=
  flat_map (fun b1 =>
    flat_map (fun b2 =>
      flat_map (fun i => map (fun j => (i, j)) (nth b2 parts []))
               (nth b1 parts []))
      (nth b1 nbrs []))
    (seq 0 n_boxes).

(** All unordered pairs [{i, j}] of [n] particles, each once, as [(i, j)]
    with [i < j]. *)
Definition all_pairs (n : nat) : list (nat * nat) :=
  flat_map (fun i => map (fun j => (i, j)) (seq (S i) (n - S i))) (seq 0 n).

(** The brute-force scan of the specification: the same pair force law
    applied once to every unordered pair, starting from zero forces. *)
Definition bruteForces (st : State) : State :=
  fold_left (fun st p => pair_body (fst p) (snd p) st)
            (all_pairs (n_parts st)) (zero_forces st).

End Engine.

(** A stream whose variates are all different: 1, 2, 3, ... *)
Definition counting_stream (k : nat) : R := INR (k + 1).

(** The two-particle scenario of the specification over the grid cell
    list: a box of side 4, [T = 0], [D_r = 0], [v0 = 0], both particles at
    height 1/2, at [x0] and [x1]. *)
Definition pair_scenario (k _dt x0 x1 : R) : State (BI := Grid.impl) :=
  placed 4 k 0 0 0 _dt counting_stream [x0; x1] [/ 2; / 2] [0; 0].

(** One particle with noise of deviation 1 on the position
    ([T = 1/2], [dt = 1]) and of deviation 2 on the angle ([D_r = 2]). *)
Definition noise_scenario : State (BI := Grid.impl) :=
  placed 4 0 (/ 2) 2 0 1 counting_stream [1] [1] [1].

(** Two particles farther apart than the cutoff, at x = 1/2 and x = 2. *)
Definition far_scenario : State (BI := Grid.impl) :=
  placed 4 1 0 0 0 1 counting_stream [/ 2; 2] [/ 2; / 2] [0; 0].

(** One particle alone in the box, at (1, 1) with the angle 1, without
    self-propulsion and without noise. *)
Definition lone_scenario : State (BI := Grid.impl) :=
  placed 4 1 0 0 0 1 counting_stream [1] [1] [1].

(** The counting stream in the order in which an MKL step of two particles
    reads what a scalar step reads as 1, 2, 3, 4, 5, 6. *)
Definition mkl_order_stream (j : nat) : R :=
  counting_stream (nth j [0; 3; 1; 4; 2; 5]%nat j).

(** Two noisy particles, with a given stream. *)
Definition noisy_pair (stream : nat -> R) : State (BI := Grid.impl) :=
  placed 4 1 (/ 2) 2 1 1 stream [/ 4; 3 / 4] [/ 2; / 2] [0; 1].

(** One particle that a step takes out of the box and out of the angle
    range: at x = 7/2 with noise of deviation 1 on the position and of
    deviation 3 on the angle ([T = 1/2], [D_r = 9/2], [dt = 1]). *)
Definition wrap_scenario : State (BI := Grid.impl) :=
  placed 4 0 (/ 2) (9 / 2) 0 1 counting_stream [7 / 2] [1] [1].

(** Two self-propelled noisy particles closer than the cutoff, without
    potential ([k = 0]). *)
Definition free_pair : State (BI := Grid.impl) :=
  placed 4 0 (/ 2) 2 1 1 counting_stream [/ 4; 3 / 4] [/ 2; / 2] [0; 1].


(* ================================================================= *)
(** * Properties *)

(** ** The parameter checks *)

Module SimulFacts.
Import Simul.

Lemma notPositive_flag {T : Type} `{Comparable T} (a : T) (name : string) :
  fst (notPositive a name) = true <-> ltT a zero.
Proof.
  unfold notPositive. destruct (ltT_dec a zero) as [Hlt | Hge]; simpl.
  - split; auto.
  - split; [discriminate | contradiction].
Qed.

Lemma notStrPositive_flag {T : Type} `{Comparable T} (a : T) (name : string) :
  fst (notStrPositive a name) = true <-> leT a zero.
Proof.
  unfold notStrPositive. destruct (leT_dec a zero) as [Hle | Hgt]; simpl.
  - split; auto.
  - split; [discriminate | contradiction].
Qed.

Lemma notPositive_silent {T : Type} `{Comparable T} (a : T) (name : string) :
  fst (notPositive a name) = false -> snd (notPositive a name) = [].
Proof.
  unfold notPositive. destruct (ltT_dec a zero); simpl; [discriminate | auto].
Qed.

(** C10. [notPositive] returns true exactly when [a < 0] and
    [notStrPositive] exactly when [a <= 0], for [long] and for [double]
    arguments; at zero [notPositive] returns false and prints nothing,
    while [notStrPositive] returns true. *)
Theorem parameter_checks_at_zero :
  (forall (a : Z) (name : string),
      (fst (notPositive a name) = true <-> (a < 0)%Z) /\
      (fst (notStrPositive a name) = true <-> (a <= 0)%Z)) /\
  (forall (a : R) (name : string),
      (fst (notPositive a name) = true <-> a < 0) /\
      (fst (notStrPositive a name) = true <-> a <= 0)) /\
  (forall name : string,
      notPositive 0%Z name = (false, []) /\
      notPositive 0%R name = (false, []) /\
      fst (notStrPositive 0%Z name) = true /\
      fst (notStrPositive 0%R name) = true).
Proof.
  split; [| split].
  - intros a name. split.
    + exact (notPositive_flag a name).
    + exact (notStrPositive_flag a name).
  - intros a name. split.
    + exact (notPositive_flag a name).
    + exact (notStrPositive_flag a name).
  - intros name. split; [| split; [| split]].
    + unfold notPositive. destruct (ltT_dec 0%Z zero) as [Hlt | _]; auto.
      simpl in Hlt. lia.
    + unfold notPositive. destruct (ltT_dec 0%R zero) as [Hlt | _]; auto.
      simpl in Hlt. lra.
    + apply (notStrPositive_flag 0%Z name). simpl. lia.
    + apply (notStrPositive_flag 0%R name). simpl. lra.
Qed.

End SimulFacts.

(* ================================================================= *)
(** ** Arrays *)

Lemma upd_length (i : nat) (f : R -> R) (v : vec) :
  length (upd i f v) = length v.
Proof.
  revert i. induction v as [| x v IH]; intros [| i]; simpl; auto.
Qed.

Lemma get_upd_same (i : nat) (f : R -> R) (v : vec) :
  (i < length v)%nat -> get (upd i f v) i = f (get v i).
Proof.
  unfold get. revert i.
  induction v as [| x v IH]; intros [| i] Hi; simpl in *; try lia; auto.
  apply IH. lia.
Qed.

Lemma get_upd_other (i j : nat) (f : R -> R) (v : vec) :
  i <> j -> get (upd i f v) j = get v j.
Proof.
  unfold get. revert i j.
  induction v as [| x v IH]; intros [| i] [| j] Hij; simpl; auto; try lia.
Qed.

Lemma nth_error_get (v : vec) (i : nat) :
  (i < length v)%nat -> nth_error v i = Some (get v i).
Proof. intros Hi. unfold get. apply nth_error_nth'. exact Hi. Qed.


Lemma vec_ext (v w : vec) :
  length v = length w -> (forall i, (i < length v)%nat -> get v i = get w i) ->
  v = w.
Proof.
  intros Hl Hg. apply (nth_ext v w 0 0 Hl). exact Hg.
Qed.

Lemma store_length (n : nat) (g : nat -> R) (y : vec) :
  (n <= length y)%nat -> length (store n g y) = length y.
Proof.
  intros Hn. unfold store.
  rewrite length_app, length_map, length_seq, length_skipn. lia.
Qed.

Lemma get_store (n : nat) (g : nat -> R) (y : vec) (i : nat) :
  (i < n)%nat -> get (store n g y) i = g i.
Proof.
  intros Hi. unfold get, store.
  rewrite app_nth1 by (rewrite length_map, length_seq; exact Hi).
  rewrite (nth_indep _ 0 (g 0%nat))
    by (rewrite length_map, length_seq; exact Hi).
  rewrite map_nth, seq_nth by exact Hi. reflexivity.
Qed.

Lemma store_map (n : nat) (g : nat -> R) (y : vec) :
  length y = n -> store n g y = map g (seq 0 n).
Proof.
  intros Hl. unfold store. rewrite skipn_all2 by lia. apply app_nil_r.
Qed.

Lemma vsum_upd (i : nat) (f : R -> R) (v : vec) :
  (i < length v)%nat -> vsum (upd i f v) = vsum v + (f (get v i) - get v i).
Proof.
  unfold get, vsum. revert i.
  induction v as [| x v IH]; intros [| i] Hi; simpl in *; try lia.
  - lra.
  - rewrite IH by lia. lra.
Qed.

Lemma vsum_repeat_zero (n : nat) : vsum (repeat 0 n) = 0.
Proof.
  unfold vsum. induction n as [| n IH]; simpl; [reflexivity | ].
  rewrite IH. lra.
Qed.

Lemma get_repeat (x : R) (n i : nat) : (i < n)%nat -> get (repeat x n) i = x.
Proof. intros Hi. unfold get. apply nth_repeat_lt. exact Hi. Qed.

(* ================================================================= *)
(** ** Floors and wraps *)

Lemma floor_unique (r : R) (z : Z) : IZR z <= r < IZR z + 1 -> Int_part r = z.
Proof.
  intros [Hlo Hhi]. symmetry. apply Int_part_spec. split; lra.
Qed.

Lemma floor_bounds (r : R) : IZR (Int_part r) <= r < IZR (Int_part r) + 1.
Proof.
  destruct (base_Int_part r) as [Hlo Hhi]. split; lra.
Qed.

Lemma pbc_range (x L : R) : 0 < L -> 0 <= pbc x L < L.
Proof.
  intros HL. unfold pbc.
  destruct (floor_bounds (x / L)) as [Hlo Hhi].
  assert (Hx : x = x / L * L) by (field; lra).
  split; nra.
Qed.

Lemma pbcSym_range (x L : R) : 0 < L -> - L / 2 <= pbcSym x L < L / 2.
Proof.
  intros HL. unfold pbcSym.
  destruct (floor_bounds (x / L + / 2)) as [Hlo Hhi].
  assert (Hx : x = x / L * L) by (field; lra).
  split; nra.
Qed.

Lemma pbcSym_small (x L : R) : - L / 2 <= x < L / 2 -> pbcSym x L = x.
Proof.
  intros [Hlo Hhi]. unfold pbcSym.
  assert (HL : 0 < L) by lra.
  rewrite (floor_unique (x / L + / 2) 0).
  - lra.
  - assert (Hx : x = x / L * L) by (field; lra). split; nra.
Qed.

(** The centered wrap has the period of the box. *)
Lemma pbcSym_shift (x L : R) (z : Z) :
  L <> 0 -> pbcSym (x + L * IZR z) L = pbcSym x L.
Proof.
  intros HL. unfold pbcSym.
  destruct (floor_bounds (x / L + / 2)) as [Hlo Hhi].
  rewrite (floor_unique ((x + L * IZR z) / L + / 2)
             (Int_part (x / L + / 2) + z)).
  - rewrite plus_IZR. ring.
  - rewrite plus_IZR.
    replace ((x + L * IZR z) / L + / 2) with (x / L + / 2 + IZR z)
      by (field; exact HL).
    split; lra.
Qed.

(** Away from the edge of its range the centered wrap is odd. *)
Lemma pbcSym_opp (x L : R) :
  0 < L -> pbcSym x L <> - L / 2 -> pbcSym (- x) L = - pbcSym x L.
Proof.
  intros HL Hedge. unfold pbcSym in *.
  destruct (floor_bounds (x / L + / 2)) as [Hlo Hhi].
  set (z := Int_part (x / L + / 2)) in *.
  assert (Hx : x = x / L * L) by (field; lra).
  assert (Hne : IZR z <> x / L + / 2).
  { intros Heq. apply Hedge. rewrite Heq. field. lra. }
  rewrite (floor_unique (- x / L + / 2) (- z)).
  - rewrite opp_IZR. ring.
  - rewrite opp_IZR.
    replace (- x / L + / 2) with (- (x / L + / 2) + 1) by (field; lra).
    split; lra.
Qed.

(** The centered wrap of a difference does not see the wrap of its
    terms. *)
Lemma pbcSym_of_wrapped (a b L : R) :
  L <> 0 -> pbcSym (pbc a L - pbc b L) L = pbcSym (a - b) L.
Proof.
  intros HL. unfold pbc.
  replace (a - L * IZR (Int_part (a / L)) - (b - L * IZR (Int_part (b / L))))
    with (a - b + L * IZR (Int_part (b / L) - Int_part (a / L)))
    by (rewrite minus_IZR; ring).
  apply pbcSym_shift. exact HL.
Qed.

Lemma pbcSym_zero (L : R) : pbcSym 0 L = 0.
Proof.
  unfold pbcSym. replace (0 / L) with 0 by (unfold Rdiv; ring).
  rewrite (floor_unique (0 + / 2) 0) by (split; lra). lra.
Qed.

(* ================================================================= *)
(** ** Reading and writing the arrays of a state *)

Section StateFacts.

Context {BI : BoxesImpl}.

Lemma rd_wr_same (b : Buf) (v : vec) (st : State) : rd b (wr b v st) = v.
Proof. destruct st, b; reflexivity. Qed.

Lemma rd_wr_other (b b' : Buf) (v : vec) (st : State) :
  b <> b' -> rd b (wr b' v st) = rd b st.
Proof. intros Hb. destruct st, b, b'; try reflexivity; contradiction. Qed.

Lemma wr_rd (b : Buf) (st : State) : wr b (rd b st) st = st.
Proof. destruct st, b; reflexivity. Qed.

Lemma static_wr (b : Buf) (v : vec) (st : State) :
  static (wr b v st) = static st.
Proof. destruct st, b; reflexivity. Qed.

Lemma static_len (st st' : State) : static st' = static st -> len st' = len st.
Proof. unfold static. intros H. injection H. auto. Qed.

Lemma static_pot_strength (st st' : State) :
  static st' = static st -> pot_strength st' = pot_strength st.
Proof. unfold static. intros H. injection H. auto. Qed.

(** A loop over a concatenation of lists is the nested loop. *)
Lemma fold_left_flat_map {A B : Type} (step : State -> B -> State)
    (g : A -> list B) (l : list A) (st : State) :
  fold_left step (flat_map g l) st =
  fold_left (fun s a => fold_left step (g a) s) l st.
Proof.
  revert st. induction l as [| a l IH]; intros st; simpl; [reflexivity |].
  rewrite fold_left_app. apply IH.
Qed.

End StateFacts.

(* ================================================================= *)
(** ** calcInternalForces *)

Section ForceFacts.

Context {BI : BoxesImpl}.

Lemma upd_id (i : nat) (f : R -> R) (v : vec) :
  (forall x, f x = x) -> upd i f v = v.
Proof.
  intros Hf. revert i.
  induction v as [| x v IH]; intros [| i]; simpl; auto.
  - rewrite Hf. reflexivity.
  - rewrite IH. reflexivity.
Qed.

(** The test of line 179 is the open interval (0, 1). *)
Lemma cutoff_test (dr2 : R) : 0 < dr2 * (1 - dr2) <-> 0 < dr2 < 1.
Proof. split; intros H; nra. Qed.

Lemma pair_force_frame (st st' : State) (i j : nat) :
  positions0 st' = positions0 st -> positions1 st' = positions1 st ->
  static st' = static st -> pair_force st' i j = pair_force st i j.
Proof.
  intros H0 H1 Hs. unfold pair_force, pair_dx, pair_dy.
  rewrite H0, H1, (static_len _ _ Hs), (static_pot_strength _ _ Hs).
  reflexivity.
Qed.

(** One visit of a pair, as a write of the two force arrays. *)
Lemma pair_body_forces (i j : nat) (st : State) :
  pair_body i j st =
  wr Forces1 (snd (apply_pair st (forces0 st, forces1 st) (i, j)))
    (wr Forces0 (fst (apply_pair st (forces0 st, forces1 st) (i, j))) st).
Proof.
  unfold pair_body, apply_pair, pair_force. simpl fst. simpl snd.
  destruct (Rlt_dec 0 _) as [Hin | Hout]; simpl fst; simpl snd.
  - destruct st; reflexivity.
  - rewrite !(upd_id _ (fun x => x + 0)) by (intros; lra).
    rewrite !(upd_id _ (fun x => x - 0)) by (intros; lra).
    destruct st; reflexivity.
Qed.

Lemma pair_body_static (i j : nat) (st : State) :
  static (pair_body i j st) = static st.
Proof. rewrite pair_body_forces, !static_wr. reflexivity. Qed.

Lemma pair_body_rd (b : Buf) (i j : nat) (st : State) :
  b <> Forces0 -> b <> Forces1 -> rd b (pair_body i j st) = rd b st.
Proof.
  intros H0 H1. rewrite pair_body_forces, !rd_wr_other by assumption.
  reflexivity.
Qed.

(** A run of visits, as a write of the two force arrays. *)
Lemma visits_forces (l : list (nat * nat)) (st : State) :
  fold_left (fun s p => pair_body (fst p) (snd p) s) l st =
  wr Forces1 (snd (fold_left (apply_pair st) l (forces0 st, forces1 st)))
    (wr Forces0 (fst (fold_left (apply_pair st) l (forces0 st, forces1 st)))
        st).
Proof.
  revert st. induction l as [| [i j] l IH]; intros st; simpl fold_left.
  - simpl. change (forces1 st) with (rd Forces1 st).
    change (forces0 st) with (rd Forces0 st).
    rewrite (wr_rd Forces0), (wr_rd Forces1). reflexivity.
  - rewrite IH. simpl fst at 1 2. simpl snd at 1 2.
    assert (Hpf : forall F p,
               apply_pair (pair_body i j st) F p = apply_pair st F p).
    { intros F p. unfold apply_pair.
      rewrite (pair_force_frame st (pair_body i j st)); auto.
      - apply (pair_body_rd Pos0); discriminate.
      - apply (pair_body_rd Pos1); discriminate.
      - apply pair_body_static. }
    assert (Hstart : (forces0 (pair_body i j st), forces1 (pair_body i j st))
                     = apply_pair st (forces0 st, forces1 st) (i, j)).
    { rewrite pair_body_forces. destruct st; reflexivity. }
    rewrite Hstart.
    assert (Hfold : forall (l0 : list (nat * nat)) F,
               fold_left (apply_pair (pair_body i j st)) l0 F =
               fold_left (apply_pair st) l0 F).
    { induction l0 as [| p l0 IH0]; intros F; simpl; [reflexivity |].
      rewrite Hpf. apply IH0. }
    rewrite Hfold.
    rewrite pair_body_forces.
    set (X := fold_left (apply_pair st) l _).
    destruct st; reflexivity.
Qed.

(** The four nested loops visit the pairs of [pairs_visited], in order. *)
Lemma pair_loops_visits (n_boxes : nat) (nbrs parts : list (list nat))
    (st : State) :
  pair_loops n_boxes nbrs parts st =
  fold_left (fun s p => pair_body (fst p) (snd p) s)
            (pairs_visited n_boxes nbrs parts) st.
Proof.
  unfold pair_loops, pairs_visited.
  rewrite fold_left_flat_map.
  revert st. induction (seq 0 n_boxes) as [| b1 l1 IH1]; intros st;
    simpl; [reflexivity |].
  rewrite <- IH1. f_equal.
  rewrite fold_left_flat_map. clear IH1.
  revert st. induction (nth b1 nbrs []) as [| b2 l2 IH2]; intros st;
    simpl; [reflexivity |].
  rewrite <- IH2. f_equal.
  rewrite fold_left_flat_map. clear IH2.
  revert st. induction (nth b1 parts []) as [| i l3 IH3]; intros st;
    simpl; [reflexivity |].
  rewrite <- IH3. f_equal. clear IH3.
  revert st. induction (nth b2 parts []) as [| j l4 IH4]; intros st;
    simpl; [reflexivity |].
  rewrite <- IH4. reflexivity.
Qed.

Lemma zeroed_length (l : list nat) (v : vec) : length (zeroed l v) = length v.
Proof.
  unfold zeroed. revert v.
  induction l as [| i l IH]; intros v; simpl; [reflexivity |].
  rewrite IH. apply upd_length.
Qed.

Lemma zeroed_seq (n : nat) (v : vec) :
  length v = n -> zeroed (seq 0 n) v = repeat 0 n.
Proof.
  intros Hl. unfold zeroed.
  assert (Hpt : forall m, (m <= n)%nat ->
            length (fold_left (fun v i => upd i (fun _ => 0) v) (seq 0 m) v) = n
            /\ (forall i, (i < m)%nat ->
                  get (fold_left (fun v i => upd i (fun _ => 0) v) (seq 0 m) v)
                      i = 0)).
  { induction m as [| m IH]; intros Hm.
    - simpl. split; [exact Hl | intros i Hi; lia].
    - destruct IH as [IHl IHg]; [lia |].
      rewrite seq_S, fold_left_app. simpl.
      split; [rewrite upd_length; exact IHl |].
      intros i Hi. destruct (Nat.eq_dec i m) as [-> | Hne].
      + rewrite get_upd_same by lia. reflexivity.
      + rewrite get_upd_other by lia. apply IHg. lia. }
  destruct (Hpt n (le_n n)) as [Hlen Hget].
  apply vec_ext.
  - rewrite repeat_length. exact Hlen.
  - intros i Hi. rewrite Hget by lia. rewrite get_repeat by lia. reflexivity.
Qed.

Lemma zero_forces_eq (st : State) :
  zero_forces st =
  wr Forces1 (zeroed (seq 0 (n_parts st)) (forces1 st))
    (wr Forces0 (zeroed (seq 0 (n_parts st)) (forces0 st)) st).
Proof.
  unfold zero_forces, zeroed.
  generalize (seq 0 (n_parts st)) as l. intros l. revert st.
  induction l as [| i l IH]; intros st; simpl.
  - destruct st; reflexivity.
  - rewrite IH. destruct st; reflexivity.
Qed.

End ForceFacts.

(* ================================================================= *)
(** ** The pair force law and Newton's third law *)

Section PairFacts.

Context {BI : BoxesImpl}.

Lemma pair_dr2_nonneg (st : State) (i j : nat) : 0 <= pair_dr2 st i j.
Proof. unfold pair_dr2. nra. Qed.

Lemma pair_force_inside (st : State) (i j : nat) :
  0 < pair_dr2 st i j < 1 ->
  pair_force st i j =
  (pot_strength st * (1 / sqrt (pair_dr2 st i j) - 1) * pair_dx st i j,
   pot_strength st * (1 / sqrt (pair_dr2 st i j) - 1) * pair_dy st i j).
Proof.
  intros Hin. unfold pair_force.
  change (pair_dx st i j * pair_dx st i j + pair_dy st i j * pair_dy st i j)
    with (pair_dr2 st i j).
  destruct (Rlt_dec 0 _) as [_ | Hout]; [reflexivity |].
  exfalso. apply Hout. apply cutoff_test. exact Hin.
Qed.

Lemma pair_force_outside (st : State) (i j : nat) :
  ~ 0 < pair_dr2 st i j < 1 -> pair_force st i j = (0, 0).
Proof.
  intros Hout. unfold pair_force.
  change (pair_dx st i j * pair_dx st i j + pair_dy st i j * pair_dy st i j)
    with (pair_dr2 st i j).
  destruct (Rlt_dec 0 _) as [Hin | _]; [| reflexivity].
  exfalso. apply Hout. apply cutoff_test. exact Hin.
Qed.

(** A particle exerts no force on itself: its distance to itself is 0. *)
Lemma pair_force_self (st : State) (i : nat) : pair_force st i i = (0, 0).
Proof.
  apply pair_force_outside. unfold pair_dr2, pair_dx, pair_dy.
  rewrite !Rminus_diag, !pbcSym_zero. lra.
Qed.


Lemma apply_pair_length (st : State) (F : vec * vec) (p : nat * nat) :
  length (fst (apply_pair st F p)) = length (fst F) /\
  length (snd (apply_pair st F p)) = length (snd F).
Proof. unfold apply_pair. simpl. rewrite !upd_length. split; reflexivity. Qed.

(** What a visit adds to one array it takes from it again: the sum of the
    array stays. *)
Lemma vsum_add_sub (i j : nat) (e : R) (v : vec) :
  (i < length v)%nat -> (j < length v)%nat ->
  vsum (upd j (fun x => x - e) (upd i (fun x => x + e) v)) = vsum v.
Proof.
  intros Hi Hj.
  rewrite vsum_upd by (rewrite upd_length; exact Hj).
  rewrite vsum_upd by exact Hi. lra.
Qed.

Lemma apply_pair_vsum (st : State) (F : vec * vec) (p : nat * nat) :
  (fst p < length (fst F))%nat -> (snd p < length (fst F))%nat ->
  (fst p < length (snd F))%nat -> (snd p < length (snd F))%nat ->
  vsum (fst (apply_pair st F p)) = vsum (fst F) /\
  vsum (snd (apply_pair st F p)) = vsum (snd F).
Proof.
  intros Hi0 Hj0 Hi1 Hj1. unfold apply_pair. simpl fst. simpl snd.
  split; apply vsum_add_sub; assumption.
Qed.

Lemma visits_vsum (st : State) (n : nat) (l : list (nat * nat))
    (F : vec * vec) :
  length (fst F) = n -> length (snd F) = n ->
  Forall (fun p => (fst p < n)%nat /\ (snd p < n)%nat) l ->
  vsum (fst (fold_left (apply_pair st) l F)) = vsum (fst F) /\
  vsum (snd (fold_left (apply_pair st) l F)) = vsum (snd F).
Proof.
  revert F. induction l as [| p l IH]; intros F H0 H1 Hall; simpl.
  - split; reflexivity.
  - inversion Hall as [| p' l' [Hi Hj] Hrest]; subst.
    destruct (apply_pair_length st F p) as [Hl0 Hl1].
    destruct (IH (apply_pair st F p)) as [IH0 IH1]; try congruence; auto.
    destruct (apply_pair_vsum st F p) as [Hs0 Hs1]; try lia.
    split; congruence.
Qed.

(** Every visited pair is made of particles listed in the cells. *)
Lemma pairs_visited_in (n_boxes : nat) (nbrs parts : list (list nat))
    (i j : nat) :
  In (i, j) (pairs_visited n_boxes nbrs parts) ->
  exists b1 b2, In i (nth b1 parts []) /\ In j (nth b2 parts []) /\
                In b2 (nth b1 nbrs []) /\ (b1 < n_boxes)%nat.
Proof.
  unfold pairs_visited. intros H.
  apply in_flat_map in H. destruct H as [b1 [Hb1 H]].
  apply in_flat_map in H. destruct H as [b2 [Hb2 H]].
  apply in_flat_map in H. destruct H as [i' [Hi H]].
  apply in_map_iff in H. destruct H as [j' [Heq Hj]].
  injection Heq as -> ->. exists b1, b2.
  apply in_seq in Hb1. repeat split; auto. lia.
Qed.

Lemma nth_Forall {A : Type} (P : A -> Prop) (ll : list (list A)) (b : nat) :
  Forall (Forall P) ll -> Forall P (nth b ll []).
Proof.
  intros H. destruct (Nat.lt_ge_cases b (length ll)) as [Hlt | Hge].
  - rewrite Forall_forall in H. apply H. apply nth_In. exact Hlt.
  - rewrite nth_overflow by exact Hge. constructor.
Qed.

Lemma pairs_visited_range (n : nat) (n_boxes : nat)
    (nbrs parts : list (list nat)) :
  Forall (Forall (fun i => (i < n)%nat)) parts ->
  Forall (fun p => (fst p < n)%nat /\ (snd p < n)%nat)
         (pairs_visited n_boxes nbrs parts).
Proof.
  intros Hparts. apply Forall_forall. intros [i j] Hin.
  apply pairs_visited_in in Hin. destruct Hin as [b1 [b2 [Hi [Hj _]]]].
  pose proof (nth_Forall _ parts b1 Hparts) as H1.
  pose proof (nth_Forall _ parts b2 Hparts) as H2.
  rewrite Forall_forall in H1, H2. simpl. split; auto.
Qed.

(** [calcInternalForces] as a run of visits from zero forces. *)
Lemma calcInternalForces_eq (st : State) :
  sized st ->
  let bx := update (boxes st) (positions0 st) (positions1 st) in
  let visits :=
    pairs_visited (getNBoxes bx) (getNbrsPos bx) (getPartsOfBox bx) in
  let zeros := repeat 0 (n_parts st) in
  let F := fold_left (apply_pair st) visits (zeros, zeros) in
  calcInternalForces st =
  wr Forces1 (snd F) (wr Forces0 (fst F) (set_boxes bx st)).
Proof.
  intros (_ & _ & _ & Hf0 & Hf1) bx visits zeros F.
  unfold calcInternalForces.
  rewrite zero_forces_eq, !zeroed_seq by assumption. fold zeros.
  set (st1 := set_boxes _ _).
  assert (Hst1 : st1 = wr Forces1 zeros (wr Forces0 zeros (set_boxes bx st))).
  { subst st1 bx. destruct st; reflexivity. }
  assert (Hbx : boxes st1 = bx).
  { rewrite Hst1. destruct st; reflexivity. }
  rewrite Hbx. rewrite pair_loops_visits. fold visits.
  rewrite visits_forces.
  assert (Hap : forall l F0,
             fold_left (apply_pair st1) l F0 = fold_left (apply_pair st) l F0).
  { induction l as [| p l IH]; intros F0; simpl; [reflexivity |].
    rewrite IH. f_equal. unfold apply_pair.
    rewrite (pair_force_frame st st1); auto;
      rewrite Hst1; destruct st; reflexivity. }
  rewrite Hap.
  assert (Hz : (forces0 st1, forces1 st1) = (zeros, zeros)).
  { rewrite Hst1. destruct st; reflexivity. }
  rewrite Hz. fold F. rewrite Hst1. destruct st; reflexivity.
Qed.

(** C6. For a visited pair of two particles the force taken from [j] is
    the force given to [i], and after [calcInternalForces] both components of
    the internal forces sum to zero over the particles. *)
Theorem newton_third_law (st : State) :
  sized st ->
  Forall (Forall (fun i => (i < n_parts st)%nat))
         (getPartsOfBox (update (boxes st) (positions0 st) (positions1 st))) ->
  (forall i j, (i < n_parts st)%nat -> (j < n_parts st)%nat -> i <> j ->
     get (forces0 (pair_body i j st)) j - get (forces0 st) j =
       - (get (forces0 (pair_body i j st)) i - get (forces0 st) i) /\
     get (forces1 (pair_body i j st)) j - get (forces1 st) j =
       - (get (forces1 (pair_body i j st)) i - get (forces1 st) i)) /\
  vsum (forces0 (calcInternalForces st)) = 0 /\
  vsum (forces1 (calcInternalForces st)) = 0.
Proof.
  intros Hsized Hparts. split.
  - intros i j Hi Hj Hij.
    destruct Hsized as (_ & _ & _ & Hf0 & Hf1).
    rewrite pair_body_forces.
    change (forces0 (wr Forces1 ?a ?s)) with (rd Forces0 (wr Forces1 a s)).
    change (forces1 (wr Forces1 ?a ?s)) with (rd Forces1 (wr Forces1 a s)).
    rewrite rd_wr_same, rd_wr_other, rd_wr_same by discriminate.
    unfold apply_pair. simpl fst. simpl snd.
    rewrite !get_upd_same by (rewrite ?upd_length; lia).
    rewrite !(get_upd_other j i) by lia.
    rewrite !(get_upd_other i j) by lia.
    rewrite !get_upd_same by lia.
    split; lra.
  - rewrite calcInternalForces_eq by exact Hsized. cbv zeta.
    set (bx := update _ _ _) in *.
    set (visits := pairs_visited _ _ _).
    set (zeros := repeat 0 (n_parts st)).
    change (forces0 (wr Forces1 ?a ?s)) with (rd Forces0 (wr Forces1 a s)).
    change (forces1 (wr Forces1 ?a ?s)) with (rd Forces1 (wr Forces1 a s)).
    rewrite rd_wr_same, rd_wr_other, rd_wr_same by discriminate.
    destruct (visits_vsum st (n_parts st) visits (zeros, zeros)) as [H0 H1].
    + apply repeat_length.
    + apply repeat_length.
    + apply pairs_visited_range. exact Hparts.
    + rewrite H0, H1. simpl. subst zeros. rewrite vsum_repeat_zero. auto.
Qed.

End PairFacts.

(* ================================================================= *)
(** ** The integration step *)

Section IntegrateFacts.

Context {BI : BoxesImpl}.

Lemma static_fields (st st' : State) :
  static st' = static st ->
  len st' = len st /\ n_parts st' = n_parts st /\
  pot_strength st' = pot_strength st /\ activity st' = activity st /\
  dt st' = dt st /\ stddev_temp st' = stddev_temp st /\
  stddev_rot st' = stddev_rot st.
Proof. unfold static. intros H. injection H. intros. repeat split; auto. Qed.

Lemma store_length_exact (n : nat) (g : nat -> R) (y : vec) :
  length y = n -> length (store n g y) = n.
Proof. intros Hl. rewrite store_length; lia. Qed.

(** *** The scalar loop *)

Lemma scalar_body_eq (s : State) (i : nat) :
  scalar_body s i =
  mkState (len s) (n_parts s) (pot_strength s) (activity s) (dt s) (boxes s)
    (stddev_temp s) (stddev_rot s) (rng s) (rng_pos s + 1 + 1 + 1)
    (upd i (fun x => x + gaussian 0 (stddev_temp s) (variate s 0))
       (upd i (fun x => x + dt s * (get (forces0 s) i
                                   + activity s * cos (get (angles s) i)))
          (positions0 s)))
    (upd i (fun x => x + gaussian 0 (stddev_temp s)
                                  (rng s (rng_pos s + 1 + 0)%nat))
       (upd i (fun x => x + dt s * (get (forces1 s) i
                                   + activity s * sin (get (angles s) i)))
          (positions1 s)))
    (upd i (fun x => x + gaussian 0 (stddev_rot s)
                                  (rng s (rng_pos s + 1 + 1 + 0)%nat))
       (angles s))
    (forces0 s) (forces1 s) (aux_x s) (aux_y s) (aux_angle s).
Proof. destruct s. reflexivity. Qed.

Lemma scalar_loop (st : State) (m : nat) :
  sized st -> (m <= n_parts st)%nat ->
  let st' := fold_left scalar_body (seq 0 m) st in
  static st' = static st /\ rng st' = rng st /\ boxes st' = boxes st /\
  forces0 st' = forces0 st /\ forces1 st' = forces1 st /\
  rng_pos st' = (rng_pos st + 3 * m)%nat /\
  sized st' /\
  (forall i, (i < m)%nat ->
     get (positions0 st') i
       = euler_x st i (gaussian 0 (stddev_temp st) (variate st (3 * i))) /\
     get (positions1 st') i
       = euler_y st i (gaussian 0 (stddev_temp st) (variate st (3 * i + 1))) /\
     get (angles st') i
       = euler_theta st i
           (gaussian 0 (stddev_rot st) (variate st (3 * i + 2)))) /\
  (forall i, (m <= i)%nat ->
     get (positions0 st') i = get (positions0 st) i /\
     get (positions1 st') i = get (positions1 st) i /\
     get (angles st') i = get (angles st) i).
Proof.
  intros Hsz. induction m as [| m IH]; intros Hm; cbv zeta.
  - simpl. rewrite Nat.add_0_r. repeat split; auto; try apply Hsz; lia.
  - destruct IH as (Hst & Hrng & Hbx & Hf0 & Hf1 & Hpos & Hsz' & Hlt & Hge);
      [lia |].
    rewrite seq_S, fold_left_app. simpl.
    set (s := fold_left scalar_body (seq 0 m) st) in *.
    destruct (static_fields _ _ Hst) as (Hl & Hn & Hk & Ha & Hd & Hsdt & Hsdr).
    destruct Hsz' as (L0 & L1 & L2 & L3 & L4).
    destruct (Hge m (le_n m)) as (G0 & G1 & G2).
    rewrite scalar_body_eq. unfold sized, static, variate. simpl.
    rewrite Hl, Hn, Hk, Ha, Hd, Hsdt, Hsdr, Hrng, Hbx, Hf0, Hf1.
    rewrite !upd_length.
    split; [reflexivity |]. split; [reflexivity |]. split; [reflexivity |].
    split; [reflexivity |]. split; [reflexivity |]. split; [lia |].
    split; [destruct Hsz as (S0 & S1 & S2 & S3 & S4); repeat split; lia |].
    split.
    + intros i Hi. destruct (Nat.eq_dec i m) as [-> | Hne].
      * rewrite !get_upd_same by (rewrite ?upd_length; lia).
        unfold euler_x, euler_y, euler_theta, variate. cbv beta.
        rewrite G0, G1, G2, Hpos.
        replace (rng_pos st + 3 * m + 0)%nat with (rng_pos st + 3 * m)%nat
          by lia.
        replace (rng_pos st + 3 * m + 1 + 0)%nat
          with (rng_pos st + (3 * m + 1))%nat by lia.
        replace (rng_pos st + 3 * m + 1 + 1 + 0)%nat
          with (rng_pos st + (3 * m + 2))%nat by lia.
        repeat split; lra.
      * rewrite !get_upd_other by lia. apply Hlt. lia.
    + intros i Hi. rewrite !get_upd_other by lia. apply Hge. lia.
Qed.

(** *** The loop of the second revision's MKL build *)

Lemma mkl2_body_eq (s : State) (i : nat) :
  mkl2_body s i =
  mkState (len s) (n_parts s) (pot_strength s) (activity s) (dt s) (boxes s)
    (stddev_temp s) (stddev_rot s) (rng s) (rng_pos s)
    (upd i (fun x => x + get (aux_x s) i)
       (upd i (fun x => x + dt s * (get (forces0 s) i
                                   + activity s * cos (get (angles s) i)))
          (positions0 s)))
    (upd i (fun x => x + get (aux_y s) i)
       (upd i (fun x => x + dt s * (get (forces1 s) i
                                   + activity s * sin (get (angles s) i)))
          (positions1 s)))
    (upd i (fun x => x + get (aux_angle s) i) (angles s))
    (forces0 s) (forces1 s) (aux_x s) (aux_y s) (aux_angle s).
Proof. destruct s. reflexivity. Qed.

Lemma mkl2_loop (st : State) (m : nat) :
  sized st -> (m <= n_parts st)%nat ->
  let st' := fold_left mkl2_body (seq 0 m) st in
  static st' = static st /\ rng st' = rng st /\ boxes st' = boxes st /\
  forces0 st' = forces0 st /\ forces1 st' = forces1 st /\
  rng_pos st' = rng_pos st /\
  (aux_x st' = aux_x st /\ aux_y st' = aux_y st /\
   aux_angle st' = aux_angle st) /\
  sized st' /\
  (forall i, (i < m)%nat ->
     get (positions0 st') i = euler_x st i (get (aux_x st) i) /\
     get (positions1 st') i = euler_y st i (get (aux_y st) i) /\
     get (angles st') i = euler_theta st i (get (aux_angle st) i)) /\
  (forall i, (m <= i)%nat ->
     get (positions0 st') i = get (positions0 st) i /\
     get (positions1 st') i = get (positions1 st) i /\
     get (angles st') i = get (angles st) i).
Proof.
  intros Hsz. induction m as [| m IH]; intros Hm; cbv zeta.
  - simpl. repeat split; auto; try apply Hsz; lia.
  - destruct IH
      as (Hst & Hrng & Hbx & Hf0 & Hf1 & Hpos & (Hax & Hay & Haa) & Hsz'
          & Hlt & Hge); [lia |].
    rewrite seq_S, fold_left_app. simpl.
    set (s := fold_left mkl2_body (seq 0 m) st) in *.
    destruct (static_fields _ _ Hst) as (Hl & Hn & Hk & Ha & Hd & Hsdt & Hsdr).
    destruct Hsz' as (L0 & L1 & L2 & L3 & L4).
    destruct (Hge m (le_n m)) as (G0 & G1 & G2).
    rewrite mkl2_body_eq. unfold sized, static. simpl.
    rewrite Hl, Hn, Hk, Ha, Hd, Hsdt, Hsdr, Hrng, Hbx, Hf0, Hf1, Hax, Hay,
      Haa, Hpos.
    rewrite !upd_length.
    split; [reflexivity |]. split; [reflexivity |]. split; [reflexivity |].
    split; [reflexivity |]. split; [reflexivity |]. split; [reflexivity |].
    split; [repeat split; reflexivity |].
    split; [destruct Hsz as (S0 & S1 & S2 & S3 & S4); repeat split; lia |].
    split.
    + intros i Hi. destruct (Nat.eq_dec i m) as [-> | Hne].
      * rewrite !get_upd_same by (rewrite ?upd_length; lia).
        unfold euler_x, euler_y, euler_theta. cbv beta.
        rewrite G0, G1, G2. repeat split; lra.
      * rewrite !get_upd_other by lia. apply Hlt. lia.
    + intros i Hi. rewrite !get_upd_other by lia. apply Hge. lia.
Qed.

Lemma mkl2_draws_eq (s : State) :
  mkl2_draws s =
  mkState (len s) (n_parts s) (pot_strength s) (activity s) (dt s) (boxes s)
    (stddev_temp s) (stddev_rot s) (rng s)
    (rng_pos s + n_parts s + n_parts s + n_parts s)
    (positions0 s) (positions1 s) (angles s) (forces0 s) (forces1 s)
    (store (n_parts s)
       (fun i => gaussian 0 (stddev_temp s) (rng s (rng_pos s + i)%nat))
       (aux_x s))
    (store (n_parts s)
       (fun i => gaussian 0 (stddev_temp s)
                   (rng s (rng_pos s + n_parts s + i)%nat))
       (aux_y s))
    (store (n_parts s)
       (fun i => gaussian 0 (stddev_rot s)
                   (rng s (rng_pos s + n_parts s + n_parts s + i)%nat))
       (aux_angle s)).
Proof. destruct s. reflexivity. Qed.

(** *** All three builds *)

(** What [integrate] does to particle [i] in each build: the Euler-Maruyama
    update with the variates [draw_x], [draw_y] and [draw_theta] of the
    stream, the angle noise having the deviation [dev_theta]. *)
Lemma integrate_spec (b : Build) (st : State) :
  sized st ->
  let st' := integrate b st in
  let n := n_parts st in
  static st' = static st /\ rng st' = rng st /\ boxes st' = boxes st /\
  forces0 st' = forces0 st /\ forces1 st' = forces1 st /\
  rng_pos st' = (rng_pos st + 3 * n)%nat /\
  sized st' /\
  (forall i, (i < n)%nat ->
     get (positions0 st') i
       = euler_x st i
           (gaussian 0 (stddev_temp st) (variate st (draw_x b n i))) /\
     get (positions1 st') i
       = euler_y st i
           (gaussian 0 (stddev_temp st) (variate st (draw_y b n i))) /\
     get (angles st') i
       = euler_theta st i
           (gaussian 0 (dev_theta b st) (variate st (draw_theta b n i)))).
Proof.
  intros Hsz st' n. destruct b.
  - (* Scalar *)
    destruct (scalar_loop st n Hsz (le_n _))
      as (H1 & H2 & H3 & H4 & H5 & H6 & H7 & H8 & _).
    subst st'. unfold integrate. fold n.
    split; [exact H1 |]. split; [exact H2 |]. split; [exact H3 |].
    split; [exact H4 |]. split; [exact H5 |]. split; [exact H6 |].
    split; [exact H7 |]. exact H8.
  - (* MklRev1 *)
    pose proof Hsz as (S0 & S1 & S2 & S3 & S4).
    subst st' n. clear Hsz. destruct st. simpl in S0, S1, S2, S3, S4.
    unfold integrate, mkl1_update, euler_x, euler_y, euler_theta, static,
      sized, dev_theta, draw_x, draw_y, draw_theta, variate.
    cbn -[store get Nat.mul].
    split; [reflexivity |]. split; [reflexivity |]. split; [reflexivity |].
    split; [reflexivity |]. split; [reflexivity |]. split; [lia |].
    split.
    + repeat split; try assumption; repeat apply store_length_exact;
        assumption.
    + intros i Hi.
      repeat (rewrite get_store by exact Hi; cbv beta).
      rewrite <- !Nat.add_assoc.
      repeat split; lra.
  - (* MklRev2 *)
    subst st'. unfold integrate. rewrite mkl2_draws_eq.
    set (s := mkState _ _ _ _ _ _ _ _ _ _ _ _ _ _ _ _ _ _).
    assert (Hszs : sized s) by exact Hsz.
    destruct (mkl2_loop s n Hszs (le_n _))
      as (H1 & H2 & H3 & H4 & H5 & H6 & _ & H7 & H8 & _).
    fold n.
    split; [exact H1 |]. split; [exact H2 |]. split; [exact H3 |].
    split; [exact H4 |]. split; [exact H5 |].
    split; [rewrite H6; subst s n; simpl; lia |].
    split; [exact H7 |].
    intros i Hi. destruct (H8 i Hi) as (E0 & E1 & E2).
    rewrite E0, E1, E2. subst s. unfold euler_x, euler_y, euler_theta.
    simpl. rewrite !get_store by exact Hi.
    unfold variate. simpl.
    replace (rng_pos st + n_parts st + i)%nat
      with (rng_pos st + (n + i))%nat by (subst n; lia).
    replace (rng_pos st + n_parts st + n_parts st + i)%nat
      with (rng_pos st + (n + n + i))%nat by (subst n; lia).
    repeat split; reflexivity.
Qed.

End IntegrateFacts.

(* ================================================================= *)
(** ** evolve and enforcePBC *)

Section EvolveFacts.

Context {BI : BoxesImpl}.

Lemma enforcePBC_body_eq (s : State) (i : nat) :
  enforcePBC_body s i =
  mkState (len s) (n_parts s) (pot_strength s) (activity s) (dt s) (boxes s)
    (stddev_temp s) (stddev_rot s) (rng s) (rng_pos s)
    (upd i (fun x => pbc x (len s)) (positions0 s))
    (upd i (fun x => pbc x (len s)) (positions1 s))
    (upd i (fun x => pbc x (2 * PI)) (angles s))
    (forces0 s) (forces1 s) (aux_x s) (aux_y s) (aux_angle s).
Proof. destruct s. reflexivity. Qed.

Lemma enforcePBC_loop (st : State) (m : nat) :
  sized st -> (m <= n_parts st)%nat ->
  let st' := fold_left enforcePBC_body (seq 0 m) st in
  static st' = static st /\ rng st' = rng st /\ boxes st' = boxes st /\
  forces0 st' = forces0 st /\ forces1 st' = forces1 st /\
  rng_pos st' = rng_pos st /\
  sized st' /\
  (forall i, (i < m)%nat ->
     get (positions0 st') i = pbc (get (positions0 st) i) (len st) /\
     get (positions1 st') i = pbc (get (positions1 st) i) (len st) /\
     get (angles st') i = pbc (get (angles st) i) (2 * PI)) /\
  (forall i, (m <= i)%nat ->
     get (positions0 st') i = get (positions0 st) i /\
     get (positions1 st') i = get (positions1 st) i /\
     get (angles st') i = get (angles st) i).
Proof.
  intros Hsz. induction m as [| m IH]; intros Hm; cbv zeta.
  - simpl. repeat split; auto; try apply Hsz; lia.
  - destruct IH as (Hst & Hrng & Hbx & Hf0 & Hf1 & Hpos & Hsz' & Hlt & Hge);
      [lia |].
    rewrite seq_S, fold_left_app. simpl.
    set (s := fold_left enforcePBC_body (seq 0 m) st) in *.
    destruct (static_fields _ _ Hst) as (Hl & Hn & Hk & Ha & Hd & Hsdt & Hsdr).
    destruct Hsz' as (L0 & L1 & L2 & L3 & L4).
    destruct (Hge m (le_n m)) as (G0 & G1 & G2).
    rewrite enforcePBC_body_eq. unfold sized, static. simpl.
    rewrite Hl, Hn, Hk, Ha, Hd, Hsdt, Hsdr, Hrng, Hbx, Hf0, Hf1, Hpos.
    rewrite !upd_length.
    split; [reflexivity |]. split; [reflexivity |]. split; [reflexivity |].
    split; [reflexivity |]. split; [reflexivity |]. split; [reflexivity |].
    split; [destruct Hsz as (S0 & S1 & S2 & S3 & S4); repeat split; lia |].
    split.
    + intros i Hi. destruct (Nat.eq_dec i m) as [-> | Hne].
      * rewrite !get_upd_same by lia. rewrite G0, G1, G2.
        repeat split; reflexivity.
      * rewrite !get_upd_other by lia. apply Hlt. lia.
    + intros i Hi. rewrite !get_upd_other by lia. apply Hge. lia.
Qed.

(** After [enforcePBC] every particle is wrapped. *)
Lemma enforcePBC_spec (st : State) :
  sized st ->
  let st' := enforcePBC st in
  static st' = static st /\ rng st' = rng st /\ boxes st' = boxes st /\
  forces0 st' = forces0 st /\ forces1 st' = forces1 st /\
  rng_pos st' = rng_pos st /\
  sized st' /\
  (forall i, (i < n_parts st)%nat ->
     get (positions0 st') i = pbc (get (positions0 st) i) (len st) /\
     get (positions1 st') i = pbc (get (positions1 st) i) (len st) /\
     get (angles st') i = pbc (get (angles st) i) (2 * PI)).
Proof.
  intros Hsz.
  destruct (enforcePBC_loop st (n_parts st) Hsz (le_n _))
    as (H1 & H2 & H3 & H4 & H5 & H6 & H7 & H8 & _).
  unfold enforcePBC. cbv zeta in *.
  split; [exact H1 |]. split; [exact H2 |]. split; [exact H3 |].
  split; [exact H4 |]. split; [exact H5 |]. split; [exact H6 |].
  split; [exact H7 | exact H8].
Qed.

(** [calcInternalForces] writes the forces and the cell list only. *)
Lemma calcInternalForces_frame (st : State) :
  sized st ->
  let st' := calcInternalForces st in
  static st' = static st /\ rng st' = rng st /\ rng_pos st' = rng_pos st /\
  positions0 st' = positions0 st /\ positions1 st' = positions1 st /\
  angles st' = angles st /\
  boxes st' = update (boxes st) (positions0 st) (positions1 st) /\
  sized st'.
Proof.
  intros Hsz. cbv zeta. rewrite calcInternalForces_eq by exact Hsz. cbv zeta.
  set (bx := update _ _ _).
  set (F := fold_left _ _ _).
  assert (HF : length (fst F) = n_parts st /\ length (snd F) = n_parts st).
  { subst F. generalize (pairs_visited (getNBoxes bx) (getNbrsPos bx)
                                       (getPartsOfBox bx)) as l.
    assert (Hgen : forall l F0,
               length (fst F0) = n_parts st -> length (snd F0) = n_parts st ->
               length (fst (fold_left (apply_pair st) l F0)) = n_parts st /\
               length (snd (fold_left (apply_pair st) l F0)) = n_parts st).
    { induction l as [| p l IH]; intros F0 H0 H1; cbn [fold_left];
        [auto |].
      destruct (apply_pair_length st F0 p) as [E0 E1].
      apply IH; [exact (eq_trans E0 H0) | exact (eq_trans E1 H1)]. }
    intros l. apply Hgen; apply repeat_length. }
  destruct HF as [HF0 HF1].
  destruct Hsz as (S0 & S1 & S2 & S3 & S4).
  destruct st; unfold sized, static in *; simpl in *.
  repeat split; auto.
Qed.

(** [evolve] before the final wrap. *)
Lemma evolve_prewrap_frame (b : Build) (st : State) :
  sized st ->
  let st' := evolve_prewrap b st in
  static st' = static st /\ rng st' = rng st /\
  rng_pos st' = (rng_pos st + 3 * n_parts st)%nat /\
  forces0 st' = forces0 (calcInternalForces st) /\
  forces1 st' = forces1 (calcInternalForces st) /\
  boxes st' = update (boxes st) (positions0 st) (positions1 st) /\
  sized st'.
Proof.
  intros Hsz. cbv zeta. unfold evolve_prewrap.
  destruct (calcInternalForces_frame st Hsz)
    as (C1 & C2 & C3 & C4 & C5 & C6 & C7 & C8).
  destruct (integrate_spec b (calcInternalForces st) C8)
    as (I1 & I2 & I3 & I4 & I5 & I6 & I7 & _).
  cbv zeta in *.
  destruct (static_fields _ _ C1) as (_ & Hn & _).
  split; [congruence |]. split; [congruence |]. split; [congruence |].
  split; [congruence |]. split; [congruence |]. split; [congruence |].
  exact I7.
Qed.

Lemma evolve_frame (b : Build) (st : State) :
  sized st ->
  let st' := evolve b st in
  static st' = static st /\ rng st' = rng st /\
  rng_pos st' = (rng_pos st + 3 * n_parts st)%nat /\
  forces0 st' = forces0 (calcInternalForces st) /\
  forces1 st' = forces1 (calcInternalForces st) /\
  sized st'.
Proof.
  intros Hsz. cbv zeta. unfold evolve.
  destruct (evolve_prewrap_frame b st Hsz)
    as (P1 & P2 & P3 & P4 & P5 & P6 & P7).
  destruct (enforcePBC_spec (evolve_prewrap b st) P7)
    as (E1 & E2 & E3 & E4 & E5 & E6 & E7 & _).
  cbv zeta in *.
  split; [congruence |]. split; [congruence |]. split; [congruence |].
  split; [congruence |]. split; [congruence |]. exact E7.
Qed.

(** C4. In every build [evolve] keeps the box side, the number of
    particles and the sizes of the three arrays, and what it stores for
    particle [i] is the wrap of what the update of the step left:
    [pbc x L], [pbc y L] and [pbc theta (2*pi)]; so after [evolve]
    [0 <= x_i < L], [0 <= y_i < L] and [0 <= orientation_i < 2*pi]. *)
Theorem periodicity_invariant (b : Build) (st : State) (i : nat) :
  sized st -> 0 < len st -> (i < n_parts st)%nat ->
  (len (evolve b st) = len st /\ n_parts (evolve b st) = n_parts st /\
   length (positions0 (evolve b st)) = n_parts st /\
   length (positions1 (evolve b st)) = n_parts st /\
   length (angles (evolve b st)) = n_parts st) /\
  exists x y theta x' y' theta',
    (nth_error (positions0 (evolve_prewrap b st)) i = Some x /\
     nth_error (positions1 (evolve_prewrap b st)) i = Some y /\
     nth_error (angles (evolve_prewrap b st)) i = Some theta) /\
    (nth_error (positions0 (evolve b st)) i = Some x' /\
     nth_error (positions1 (evolve b st)) i = Some y' /\
     nth_error (angles (evolve b st)) i = Some theta') /\
    (x' = pbc x (len st) /\ y' = pbc y (len st) /\
     theta' = pbc theta (2 * PI)) /\
    (0 <= x' < len st /\ 0 <= y' < len st /\ 0 <= theta' < 2 * PI).
Proof.
  intros Hsz HL Hi. unfold evolve.
  destruct (evolve_prewrap_frame b st Hsz)
    as (P1 & _ & _ & _ & _ & _ & P7). cbv zeta in *.
  destruct (static_fields _ _ P1) as (Hl & Hn & _).
  destruct (enforcePBC_spec (evolve_prewrap b st) P7)
    as (E1 & _ & _ & _ & _ & _ & E7 & E8). cbv zeta in *.
  destruct (static_fields _ _ E1) as (El & En & _).
  destruct (E8 i) as (E0 & E1' & E2); [lia |].
  destruct P7 as (Q0 & Q1 & Q2 & _). destruct E7 as (L0 & L1 & L2 & _).
  assert (H2pi : 0 < 2 * PI) by (pose proof PI_RGT_0; lra).
  split.
  - split; [congruence |]. split; [congruence |].
    split; [congruence |]. split; congruence.
  - exists (get (positions0 (evolve_prewrap b st)) i),
           (get (positions1 (evolve_prewrap b st)) i),
           (get (angles (evolve_prewrap b st)) i),
           (get (positions0 (enforcePBC (evolve_prewrap b st))) i),
           (get (positions1 (enforcePBC (evolve_prewrap b st))) i),
           (get (angles (enforcePBC (evolve_prewrap b st))) i).
    split; [repeat split; apply nth_error_get; lia |].
    split; [repeat split; apply nth_error_get; lia |].
    rewrite E0, E1', E2, Hl.
    split; [repeat split; reflexivity |].
    repeat split; try apply pbc_range; assumption.
Qed.

End EvolveFacts.

(* ================================================================= *)
(** ** How often a pair of one cell is visited *)

Section CountFacts.

Lemma visit_count_app (i j : nat) (l1 l2 : list (nat * nat)) :
  visit_count i j (l1 ++ l2) = (visit_count i j l1 + visit_count i j l2)%nat.
Proof. unfold visit_count. rewrite filter_app, length_app. reflexivity. Qed.

Lemma visit_count_row (i j a : nat) (lb : list nat) :
  visit_count i j (map (fun b => (a, b)) lb) =
  if (a =? i)%nat then occ j lb else 0%nat.
Proof.
  unfold visit_count, occ.
  induction lb as [| b lb IH]; simpl.
  - destruct (a =? i)%nat; reflexivity.
  - destruct (a =? i)%nat eqn:Ha; simpl.
    + destruct (b =? j)%nat; simpl; rewrite IH; reflexivity.
    + exact IH.
Qed.

Lemma visit_count_product (i j : nat) (la lb : list nat) :
  visit_count i j (flat_map (fun a => map (fun b => (a, b)) lb) la) =
  (occ i la * occ j lb)%nat.
Proof.
  induction la as [| a la IH]; simpl; [reflexivity |].
  rewrite visit_count_app, visit_count_row, IH.
  change (occ i (a :: la))
    with (length (if (a =? i)%nat then a :: filter (fun x => x =? i)%nat la
                  else filter (fun x => x =? i)%nat la)).
  fold (occ i la).
  destruct (a =? i)%nat; simpl; fold (occ i la); lia.
Qed.

(** Whatever the neighbour table: two particles that the cells list alike
    (two particles of one cell of a partition) are visited as [(i, j)] as
    often as they are as [(j, i)]. *)
Lemma same_cell_visits_symmetric (n_boxes : nat)
    (nbrs parts : list (list nat)) (i j : nat) :
  (forall b, occ i (nth b parts []) = occ j (nth b parts [])) ->
  visit_count i j (pairs_visited n_boxes nbrs parts) =
  visit_count j i (pairs_visited n_boxes nbrs parts).
Proof.
  intros Hsame. unfold pairs_visited.
  induction (seq 0 n_boxes) as [| b1 l1 IH1]; simpl; [reflexivity |].
  rewrite !visit_count_app, IH1. f_equal.
  induction (nth b1 nbrs []) as [| b2 l2 IH2]; simpl; [reflexivity |].
  rewrite !visit_count_app, IH2. f_equal.
  rewrite !visit_count_product, (Hsame b1), (Hsame b2). lia.
Qed.

(** So the loops never visit such an unordered pair exactly once. *)
Lemma same_cell_pair_never_once (n_boxes : nat)
    (nbrs parts : list (list nat)) (i j : nat) :
  (forall b, occ i (nth b parts []) = occ j (nth b parts [])) ->
  (visit_count i j (pairs_visited n_boxes nbrs parts)
   + visit_count j i (pairs_visited n_boxes nbrs parts))%nat <> 1%nat.
Proof.
  intros Hsame.
  rewrite (same_cell_visits_symmetric n_boxes nbrs parts i j Hsame). lia.
Qed.

End CountFacts.

(* ================================================================= *)
(** ** The grid cell list on a box of side 4 *)

Module GridFacts.
Import Grid.

Lemma ctor_4 (n : nat) : ctor 4 n = mk 4 n 4 (repeat [] 16).
Proof.
  unfold ctor. rewrite (floor_unique 4 4) by lra. reflexivity.
Qed.

Lemma cell_coord_4 (n : nat) (parts : list (list nat)) (x : R) (z : Z) :
  IZR z <= x < IZR z + 1 ->
  cell_coord (mk 4 n 4 parts) x = Z.to_nat (z mod 4).
Proof.
  intros Hz. unfold cell_coord, cell_side. simpl.
  rewrite (floor_unique _ z); [reflexivity |].
  replace (x / (4 / (1 + 1 + 1 + 1))) with x by (field; lra). exact Hz.
Qed.

(** The cells after [rebuild], given the cell of every particle. *)
Lemma rebuild_cells (g : t) (p0 p1 : vec) (cells : list nat) :
  (forall i, (i < g_n_parts g)%nat ->
     cell_of g (get p0 i) (get p1 i) = nth i cells 0%nat) ->
  rebuild g p0 p1 =
  mk (g_len g) (g_n_parts g) (g_n_div g)
     (map (fun b => filter (fun i => nth i cells 0 =? b)%nat
                           (seq 0 (g_n_parts g)))
          (seq 0 (n_cells g))).
Proof.
  intros Hcells. unfold rebuild. f_equal.
  apply map_ext. intros b. apply filter_ext_in. intros i Hi.
  apply in_seq in Hi. rewrite Hcells by lia. reflexivity.
Qed.

(** Every cell lists particles of the ensemble only. *)
Lemma rebuild_in_range (g : t) (p0 p1 : vec) :
  Forall (Forall (fun i => (i < g_n_parts g)%nat))
         (g_parts (rebuild g p0 p1)).
Proof.
  unfold rebuild. simpl. apply Forall_forall. intros l Hl.
  apply in_map_iff in Hl. destruct Hl as [b [<- _]].
  apply Forall_forall. intros i Hi. apply filter_In in Hi.
  destruct Hi as [Hi _]. apply in_seq in Hi. lia.
Qed.

(** Two particles at height 1/2 in the cells of the bottom row with the
    coordinates [c0] and [c1]. *)
Lemma rebuild_pair (x0 x1 : R) (c0 c1 : Z) :
  IZR c0 <= x0 < IZR c0 + 1 -> IZR c1 <= x1 < IZR c1 + 1 ->
  rebuild (ctor 4 2) [x0; x1] [/ 2; / 2] =
  mk 4 2 4
     (map (fun b =>
             filter (fun i => nth i [Z.to_nat (c0 mod 4); Z.to_nat (c1 mod 4)]
                                  0 =? b)%nat
                    (seq 0 2))
          (seq 0 16)).
Proof.
  intros H0 H1. rewrite ctor_4.
  rewrite (rebuild_cells _ _ _ [Z.to_nat (c0 mod 4); Z.to_nat (c1 mod 4)]).
  - reflexivity.
  - intros i Hi. simpl in Hi. unfold cell_of.
    assert (Hy : cell_coord (mk 4 2 4 (repeat [] 16)) (/ 2) = 0%nat).
    { rewrite (cell_coord_4 _ _ _ 0) by lra. reflexivity. }
    assert (Hlt : forall c : Z, (Z.to_nat (c mod 4) < 4)%nat).
    { intros c. pose proof (Z.mod_pos_bound c 4). lia. }
    destruct i as [| [| i]]; [| | lia]; unfold get; simpl nth.
    + rewrite Hy, (cell_coord_4 _ _ _ c0) by exact H0.
      unfold raster. simpl g_n_div.
      rewrite Nat.mod_small by apply Hlt. simpl. lia.
    + rewrite Hy, (cell_coord_4 _ _ _ c1) by exact H1.
      unfold raster. simpl g_n_div.
      rewrite Nat.mod_small by apply Hlt. simpl. lia.
Qed.

End GridFacts.

(* ================================================================= *)
(** ** Forces from the visits of different particles *)

Section VisitFacts.

Context {BI : BoxesImpl}.

Lemma apply_pair_self (st : State) (F : vec * vec) (i : nat) :
  apply_pair st F (i, i) = F.
Proof.
  unfold apply_pair. simpl fst. simpl snd. rewrite pair_force_self.
  simpl fst. simpl snd.
  rewrite !(upd_id _ (fun x => x + 0)) by (intros; lra).
  rewrite !(upd_id _ (fun x => x - 0)) by (intros; lra).
  destruct F; reflexivity.
Qed.

Lemma visits_offdiag (st : State) (l : list (nat * nat)) (F : vec * vec) :
  fold_left (apply_pair st) l F =
  fold_left (apply_pair st) (filter offdiag l) F.
Proof.
  revert F. induction l as [| [i j] l IH]; intros F; simpl; [reflexivity |].
  unfold offdiag at 1. simpl fst. simpl snd.
  destruct (Nat.eqb_spec i j) as [-> | Hne]; simpl.
  - rewrite apply_pair_self. apply IH.
  - apply IH.
Qed.

(** The forces after [calcInternalForces] come from the visits of different
    particles alone. *)
Lemma calcInternalForces_offdiag (st : State) :
  sized st ->
  let bx := update (boxes st) (positions0 st) (positions1 st) in
  let visits :=
    pairs_visited (getNBoxes bx) (getNbrsPos bx) (getPartsOfBox bx) in
  let zeros := repeat 0 (n_parts st) in
  let F := fold_left (apply_pair st) (filter offdiag visits) (zeros, zeros) in
  forces0 (calcInternalForces st) = fst F /\
  forces1 (calcInternalForces st) = snd F.
Proof.
  intros Hsz bx visits zeros F.
  rewrite calcInternalForces_eq by exact Hsz. cbv zeta.
  fold bx. fold visits. fold zeros.
  rewrite (visits_offdiag st visits). fold F.
  destruct st; split; reflexivity.
Qed.

(** The brute-force scan, from its pairs. *)
Lemma bruteForces_eq (st : State) :
  sized st ->
  let zeros := repeat 0 (n_parts st) in
  let F := fold_left (apply_pair st) (all_pairs (n_parts st)) (zeros, zeros) in
  forces0 (bruteForces st) = fst F /\ forces1 (bruteForces st) = snd F.
Proof.
  intros (_ & _ & _ & Hf0 & Hf1) zeros F. unfold bruteForces.
  rewrite visits_forces.
  rewrite zero_forces_eq, !zeroed_seq by assumption. fold zeros.
  set (st1 := wr Forces1 zeros (wr Forces0 zeros st)).
  assert (Hap : forall l F0,
             fold_left (apply_pair st1) l F0 = fold_left (apply_pair st) l F0).
  { induction l as [| p l IH]; intros F0; simpl; [reflexivity |].
    rewrite IH. f_equal. unfold apply_pair.
    rewrite (pair_force_frame st st1); auto;
      subst st1; destruct st; reflexivity. }
  rewrite Hap.
  assert (Hz : (forces0 st1, forces1 st1) = (zeros, zeros)).
  { subst st1. destruct st; reflexivity. }
  rewrite Hz.
  assert (Hn : n_parts st1 = n_parts st).
  { subst st1. destruct st; reflexivity. }
  fold F. subst st1. destruct st; split; reflexivity.
Qed.

Lemma sqrt_quarter : sqrt (/ 4) = / 2.
Proof. apply sqrt_lem_1; lra. Qed.

(** At squared distance 1/4 the factor [u] is the potential strength. *)
Lemma pair_force_quarter (st : State) (i j : nat) :
  pair_dr2 st i j = / 4 ->
  pair_force st i j =
  (pot_strength st * pair_dx st i j, pot_strength st * pair_dy st i j).
Proof.
  intros Hq. rewrite pair_force_inside by (rewrite Hq; lra).
  rewrite Hq, sqrt_quarter. f_equal; field.
Qed.

End VisitFacts.

(* ================================================================= *)
(** ** One step, before the wrap *)

Section StepFacts.

Context {BI : BoxesImpl}.

(** The update that [evolve] makes before it wraps, in each build: forces
    are the freshly computed ones, sine and cosine are taken at the angle
    before the step, and the noise is the one of [draw_x], [draw_y],
    [draw_theta] and [dev_theta]. *)
Lemma evolve_prewrap_spec (b : Build) (st : State) (i : nat) :
  sized st -> (i < n_parts st)%nat ->
  let st' := evolve_prewrap b st in
  let n := n_parts st in
  get (positions0 st') i =
    get (positions0 st) i
    + dt st * (get (forces0 (calcInternalForces st)) i
               + activity st * cos (get (angles st) i))
    + gaussian 0 (stddev_temp st) (variate st (draw_x b n i)) /\
  get (positions1 st') i =
    get (positions1 st) i
    + dt st * (get (forces1 (calcInternalForces st)) i
               + activity st * sin (get (angles st) i))
    + gaussian 0 (stddev_temp st) (variate st (draw_y b n i)) /\
  get (angles st') i =
    get (angles st) i
    + gaussian 0 (dev_theta b st) (variate st (draw_theta b n i)).
Proof.
  intros Hsz Hi. cbv zeta. unfold evolve_prewrap.
  destruct (calcInternalForces_frame st Hsz)
    as (C1 & C2 & C3 & C4 & C5 & C6 & C7 & C8). cbv zeta in *.
  destruct (static_fields _ _ C1) as (Hl & Hn & Hk & Ha & Hd & Hsdt & Hsdr).
  destruct (integrate_spec b (calcInternalForces st) C8)
    as (_ & _ & _ & _ & _ & _ & _ & I8). cbv zeta in I8.
  destruct (I8 i) as (E0 & E1 & E2); [lia |].
  rewrite E0, E1, E2. unfold euler_x, euler_y, euler_theta, variate.
  assert (Hdev : dev_theta b (calcInternalForces st) = dev_theta b st).
  { destruct b; simpl; assumption. }
  rewrite C2, C3, C4, C5, C6, Hn, Ha, Hd, Hsdt, Hdev.
  repeat split; reflexivity.
Qed.

(** No noise when the deviation is zero. *)
Lemma gaussian_zero_dev (z : R) : gaussian 0 0 z = 0.
Proof. unfold gaussian. lra. Qed.

Lemma sqrt_zero_temperature (_dt : R) : sqrt (2 * 0 * _dt) = 0.
Proof. replace (2 * 0 * _dt) with 0 by ring. apply sqrt_0. Qed.

Lemma placed_sized (L k T Dr v0 _dt : R) (stream : nat -> R)
    (xs ys thetas : vec) :
  length ys = length xs -> length thetas = length xs ->
  sized (placed L k T Dr v0 _dt stream xs ys thetas).
Proof.
  intros Hy Ht. unfold sized, placed. simpl.
  rewrite repeat_length. repeat split; auto.
Qed.

(** Two particles at the same height, at distance 1/2 along x, whose pair
    the loops visit [c] times (as [(0,1)], as [(1,0)], or as both): the
    force on each is [c] times the pair force [k * (x0 - x1)]. *)
Lemma two_particles_forces (L k T Dr v0 _dt x0 x1 y t0 t1 : R)
    (stream : nat -> R) (l : list (nat * nat)) :
  let st := placed L k T Dr v0 _dt stream [x0; x1] [y; y] [t0; t1] in
  let bx := update (boxes st) [x0; x1] [y; y] in
  let visits :=
    pairs_visited (getNBoxes bx) (getNbrsPos bx) (getPartsOfBox bx) in
  1 < L -> x0 - x1 = / 2 \/ x0 - x1 = - / 2 ->
  filter offdiag visits = l ->
  l = [(0, 1)]%nat \/ l = [(1, 0)]%nat \/ l = [(0, 1); (1, 0)]%nat ->
  let c := INR (length l) in
  forces0 (calcInternalForces st)
    = [c * (k * (x0 - x1)); - (c * (k * (x0 - x1)))] /\
  forces1 (calcInternalForces st) = [0; 0].
Proof.
  intros st bx visits HL Hd Hvis Hl c.
  assert (Hsz : sized st) by (apply placed_sized; reflexivity).
  assert (Hdx01 : pair_dx st 0 1 = x0 - x1).
  { unfold pair_dx. simpl. apply pbcSym_small. destruct Hd; lra. }
  assert (Hdx10 : pair_dx st 1 0 = - (x0 - x1)).
  { unfold pair_dx. simpl. unfold get. simpl.
    rewrite pbcSym_small; destruct Hd; lra. }
  assert (Hdy : forall i j, (i < 2)%nat -> (j < 2)%nat -> pair_dy st i j = 0).
  { intros i j Hi Hj. unfold pair_dy. simpl.
    destruct i as [| [| i]]; destruct j as [| [| j]]; try lia;
      unfold get; simpl; rewrite Rminus_diag; apply pbcSym_zero. }
  assert (Hq01 : pair_dr2 st 0 1 = / 4).
  { unfold pair_dr2. rewrite Hdx01, Hdy by lia. destruct Hd as [-> | ->]; lra. }
  assert (Hq10 : pair_dr2 st 1 0 = / 4).
  { unfold pair_dr2. rewrite Hdx10, Hdy by lia. destruct Hd as [-> | ->]; lra. }
  pose proof (pair_force_quarter st 0 1 Hq01) as Hf01.
  pose proof (pair_force_quarter st 1 0 Hq10) as Hf10.
  rewrite Hdx01, Hdy in Hf01 by lia. rewrite Hdx10, Hdy in Hf10 by lia.
  destruct (calcInternalForces_offdiag st Hsz) as [HF0 HF1].
  cbv zeta in HF0, HF1.
  change (positions0 st) with [x0; x1] in HF0, HF1.
  change (positions1 st) with [y; y] in HF0, HF1.
  fold bx in HF0, HF1. fold visits in HF0, HF1.
  rewrite Hvis in HF0, HF1.
  rewrite HF0, HF1. subst c.
  destruct Hl as [-> | [-> | ->]]; simpl fold_left;
    unfold apply_pair; simpl fst; simpl snd;
    rewrite ?Hf01, ?Hf10; simpl;
    split; repeat (f_equal; try lra).
Qed.

(** The same two particles with [T = 0], [D_r = 0] and [v0 = 0]: before
    the wrap each has moved by [c * dt * k / 2], away from the other. *)
Lemma two_particles_step (b : Build) (L k _dt x0 x1 y t0 t1 : R)
    (stream : nat -> R) (l : list (nat * nat)) :
  let st := placed L k 0 0 0 _dt stream [x0; x1] [y; y] [t0; t1] in
  let bx := update (boxes st) [x0; x1] [y; y] in
  let visits :=
    pairs_visited (getNBoxes bx) (getNbrsPos bx) (getPartsOfBox bx) in
  1 < L -> x0 - x1 = / 2 \/ x0 - x1 = - / 2 ->
  filter offdiag visits = l ->
  l = [(0, 1)]%nat \/ l = [(1, 0)]%nat \/ l = [(0, 1); (1, 0)]%nat ->
  let c := INR (length l) in
  let st' := evolve_prewrap b st in
  get (positions0 st') 0 = x0 + c * (_dt * k * (x0 - x1)) /\
  get (positions0 st') 1 = x1 - c * (_dt * k * (x0 - x1)) /\
  get (positions1 st') 0 = y /\ get (positions1 st') 1 = y.
Proof.
  intros st bx visits HL Hd Hvis Hl c st'.
  assert (Hsz : sized st) by (apply placed_sized; reflexivity).
  destruct (two_particles_forces L k 0 0 0 _dt x0 x1 y t0 t1 stream l
              HL Hd Hvis Hl) as [HA HB].
  fold st in HA, HB. fold c in HA.
  assert (Hsd : stddev_temp st = 0) by apply sqrt_zero_temperature.
  split; [| split; [| split]].
  - destruct (evolve_prewrap_spec b st 0 Hsz) as (E0 & _ & _);
      [simpl; lia |].
    subst st'. rewrite E0, HA, Hsd, gaussian_zero_dev.
    unfold get. simpl. lra.
  - destruct (evolve_prewrap_spec b st 1 Hsz) as (E0 & _ & _);
      [simpl; lia |].
    subst st'. rewrite E0, HA, Hsd, gaussian_zero_dev.
    unfold get. simpl. lra.
  - destruct (evolve_prewrap_spec b st 0 Hsz) as (_ & E1 & _);
      [simpl; lia |].
    subst st'. rewrite E1, HB, Hsd, gaussian_zero_dev.
    unfold get. simpl. lra.
  - destruct (evolve_prewrap_spec b st 1 Hsz) as (_ & E1 & _);
      [simpl; lia |].
    subst st'. rewrite E1, HB, Hsd, gaussian_zero_dev.
    unfold get. simpl. lra.
Qed.

End StepFacts.

(* ================================================================= *)
(** ** The two-particle scenario over the grid cell list *)

Module ScenarioFacts.

#[local] Existing Instance Grid.impl.

(** The pairs of different particles that the loops visit, for two
    particles at height 1/2 in the bottom-row cells [c0] and [c1]. *)
Lemma visits_of_cells (x0 x1 : R) (c0 c1 : Z) :
  let bx := Grid.rebuild (Grid.ctor 4 2) [x0; x1] [/ 2; / 2] in
  IZR c0 <= x0 < IZR c0 + 1 -> IZR c1 <= x1 < IZR c1 + 1 ->
  filter offdiag
    (pairs_visited (Grid.n_cells bx) (Grid.nbrs_pos bx) (Grid.g_parts bx)) =
  filter offdiag
    (pairs_visited 16
       (map (Grid.stencil (Grid.mk 4 2 4 [])) (seq 0 16))
       (map (fun b =>
               filter (fun i => nth i [Z.to_nat (c0 mod 4);
                                       Z.to_nat (c1 mod 4)] 0 =? b)%nat
                      (seq 0 2))
            (seq 0 16))).
Proof.
  intros bx H0 H1. subst bx.
  rewrite (GridFacts.rebuild_pair x0 x1 c0 c1 H0 H1). reflexivity.
Qed.

(** Both particles in cell 0: the pair is visited twice. *)
Lemma visits_same_cell :
  let bx := Grid.rebuild (Grid.ctor 4 2) [/ 4; 3 / 4] [/ 2; / 2] in
  filter offdiag
    (pairs_visited (Grid.n_cells bx) (Grid.nbrs_pos bx) (Grid.g_parts bx)) =
  [(0, 1); (1, 0)]%nat.
Proof.
  cbv zeta. rewrite (visits_of_cells (/ 4) (3 / 4) 0 0) by (simpl; lra).
  vm_compute. reflexivity.
Qed.

(** One particle in cell 0 and one in cell 1: the pair is visited once. *)
Lemma visits_adjacent_cells :
  let bx := Grid.rebuild (Grid.ctor 4 2) [3 / 4; 5 / 4] [/ 2; / 2] in
  filter offdiag
    (pairs_visited (Grid.n_cells bx) (Grid.nbrs_pos bx) (Grid.g_parts bx)) =
  [(0, 1)]%nat.
Proof.
  cbv zeta. rewrite (visits_of_cells (3 / 4) (5 / 4) 0 1) by (simpl; lra).
  vm_compute. reflexivity.
Qed.

(** C1, at a failing input. Two particles of one cell, at distance 1/2:
    the cell-list loops give the forces [(-k, 0)] and [(k, 0)], twice the
    forces [(-k/2, 0)] and [(k/2, 0)] of the brute-force scan over the
    unordered pairs. *)
Theorem same_cell_pair_counted_twice (k _dt : R) :
  let st := pair_scenario k _dt (/ 4) (3 / 4) in
  forces0 (calcInternalForces st) = [- k; k] /\
  forces1 (calcInternalForces st) = [0; 0] /\
  forces0 (bruteForces st) = [- (k / 2); k / 2] /\
  forces1 (bruteForces st) = [0; 0].
Proof.
  intros st. unfold pair_scenario in st.
  destruct (two_particles_forces
              4 k 0 0 0 _dt (/ 4) (3 / 4) (/ 2) 0 0 counting_stream
              [(0, 1); (1, 0)]%nat) as [HA HB];
    try lra; auto; [exact visits_same_cell |].
  fold st in HA, HB. simpl in HA.
  assert (Hsz : sized st) by (apply placed_sized; reflexivity).
  destruct (bruteForces_eq st Hsz) as [BA BB]. cbv zeta in BA, BB.
  assert (Hq : pair_dr2 st 0 1 = / 4).
  { unfold pair_dr2, pair_dx, pair_dy, get. simpl.
    rewrite Rminus_diag, pbcSym_zero, pbcSym_small by lra. lra. }
  assert (Hf : pair_force st 0 1 = (k * - / 2, 0)).
  { rewrite (pair_force_quarter st 0 1 Hq).
    unfold pair_dx, pair_dy, get. simpl.
    rewrite Rminus_diag, pbcSym_zero, pbcSym_small by lra.
    f_equal; lra. }
  split; [| split; [| split]].
  - rewrite HA. repeat (f_equal; try lra).
  - exact HB.
  - rewrite BA. simpl. unfold apply_pair. simpl fst. simpl snd.
    rewrite Hf. simpl. repeat (f_equal; try lra).
  - rewrite BB. simpl. unfold apply_pair. simpl fst. simpl snd.
    rewrite Hf. simpl. repeat (f_equal; try lra).
Qed.

(** Both particles in one cell: the pair is evaluated twice and each
    particle moves by [dt * k] before the wrap, twice the step of a pair
    that is evaluated once. *)
Lemma repulsion_same_cell_doubles (b : Build) (k _dt : R) :
  let st' := evolve_prewrap b (pair_scenario k _dt (/ 4) (3 / 4)) in
  get (positions0 st') 0 = / 4 - _dt * k /\
  get (positions0 st') 1 = 3 / 4 + _dt * k.
Proof.
  destruct (two_particles_step (BI := Grid.impl) b 4 k _dt (/ 4) (3 / 4)
              (/ 2) 0 0 counting_stream [(0, 1); (1, 0)]%nat)
    as (E0 & E1 & _); try lra; auto; [exact visits_same_cell |].
  cbv zeta. unfold pair_scenario. rewrite E0, E1. simpl. split; lra.
Qed.

(** C6 at a concrete input: the two particles of one cell. *)
Lemma newton_third_law_witness :
  let st := pair_scenario 1 1 (/ 4) (3 / 4) in
  (sized st /\
   Forall (Forall (fun i => (i < n_parts st)%nat))
          (getPartsOfBox
             (update (boxes st) (positions0 st) (positions1 st)))) /\
  ((forall i j, (i < n_parts st)%nat -> (j < n_parts st)%nat -> i <> j ->
      get (forces0 (pair_body i j st)) j - get (forces0 st) j =
        - (get (forces0 (pair_body i j st)) i - get (forces0 st) i) /\
      get (forces1 (pair_body i j st)) j - get (forces1 st) j =
        - (get (forces1 (pair_body i j st)) i - get (forces1 st) i)) /\
   vsum (forces0 (calcInternalForces st)) = 0 /\
   vsum (forces1 (calcInternalForces st)) = 0).
Proof.
  assert (Hsz : sized (pair_scenario 1 1 (/ 4) (3 / 4)))
    by (apply placed_sized; reflexivity).
  assert (Hparts :
            Forall (Forall (fun i =>
                      (i < n_parts (pair_scenario 1 1 (/ 4) (3 / 4)))%nat))
              (getPartsOfBox
                 (update (boxes (pair_scenario 1 1 (/ 4) (3 / 4)))
                    (positions0 (pair_scenario 1 1 (/ 4) (3 / 4)))
                    (positions1 (pair_scenario 1 1 (/ 4) (3 / 4)))))).
  { exact (GridFacts.rebuild_in_range (Grid.ctor 4 2) [/ 4; 3 / 4]
             [/ 2; / 2]). }
  split.
  - split; [exact Hsz | exact Hparts].
  - exact (newton_third_law _ Hsz Hparts).
Defined.

End ScenarioFacts.

(* ================================================================= *)
(** ** The noise of one step *)

Section NoiseFacts.

Context {BI : BoxesImpl}.

(** In the scalar build and in the MKL build of the second revision the
    [3 n] noise values of a step are [3 n] different variates of the
    stream, the next [3 n] ones. *)
Lemma draws_fresh (b : Build) (n i j : nat) :
  b <> MklRev1 -> (i < n)%nat -> (j < n)%nat ->
  (draw_x b n i < 3 * n)%nat /\ (draw_y b n i < 3 * n)%nat /\
  (draw_theta b n i < 3 * n)%nat /\
  draw_x b n i <> draw_y b n j /\ draw_x b n i <> draw_theta b n j /\
  draw_y b n i <> draw_theta b n j /\
  (i <> j -> draw_x b n i <> draw_x b n j /\ draw_y b n i <> draw_y b n j /\
             draw_theta b n i <> draw_theta b n j).
Proof.
  intros Hb Hi Hj. destruct b; [| contradiction |]; simpl; lia.
Qed.

(** In those two builds the angle noise has the deviation of the
    rotational diffusion. *)
Lemma angle_noise_deviation (b : Build) (st : State) :
  b <> MklRev1 -> dev_theta b st = stddev_rot st.
Proof. intros Hb. destruct b; [| contradiction |]; reflexivity. Qed.

(** C3, where the code departs from it. In the MKL build of the first
    revision (line 127 adds [aux_x] to the angles) the value added to the
    angle of particle [i] is the very sample added to its x coordinate. *)
Theorem mkl_rev1_angle_gets_x_noise (st : State) (i : nat) :
  sized st -> (i < n_parts st)%nat ->
  let st' := evolve_prewrap MklRev1 st in
  let xi := gaussian 0 (stddev_temp st) (variate st i) in
  get (positions0 st') i =
    get (positions0 st) i
    + dt st * (get (forces0 (calcInternalForces st)) i
               + activity st * cos (get (angles st) i)) + xi /\
  get (angles st') i = get (angles st) i + xi.
Proof.
  intros Hsz Hi st' xi.
  destruct (evolve_prewrap_spec MklRev1 st i Hsz Hi) as (E0 & _ & E2).
  cbv zeta in E0, E2. unfold dev_theta, draw_x, draw_theta in E0, E2.
  split; assumption.
Qed.

(** Without potential there is no force. *)
Lemma pair_force_no_potential (st : State) (i j : nat) :
  pot_strength st = 0 -> pair_force st i j = (0, 0).
Proof.
  intros Hk. unfold pair_force. rewrite Hk.
  destruct (Rlt_dec 0 _); [f_equal; ring | reflexivity].
Qed.

Lemma forces_no_potential (st : State) :
  sized st -> pot_strength st = 0 ->
  forces0 (calcInternalForces st) = repeat 0 (n_parts st) /\
  forces1 (calcInternalForces st) = repeat 0 (n_parts st).
Proof.
  intros Hsz Hk.
  destruct (calcInternalForces_offdiag st Hsz) as [H0 H1].
  cbv zeta in H0, H1. rewrite H0, H1.
  set (l := filter offdiag _). clearbody l.
  assert (Hid : forall F, fold_left (apply_pair st) l F = F).
  { induction l as [| p l IH]; intros F; simpl; [reflexivity |].
    rewrite IH. unfold apply_pair.
    rewrite pair_force_no_potential by exact Hk. simpl.
    rewrite !(upd_id _ (fun x => x + 0)) by (intros; lra).
    rewrite !(upd_id _ (fun x => x - 0)) by (intros; lra).
    destruct F; reflexivity. }
  rewrite Hid. split; reflexivity.
Qed.

End NoiseFacts.

Module NoiseScenario.

#[local] Existing Instance Grid.impl.

Lemma noise_scenario_deviations :
  stddev_temp noise_scenario = 1 /\ stddev_rot noise_scenario = 2.
Proof.
  unfold noise_scenario, placed. simpl. split.
  - replace (2 * / 2 * 1) with 1 by lra. apply sqrt_1.
  - apply sqrt_lem_1; lra.
Qed.

Lemma noise_scenario_sized : sized noise_scenario.
Proof. apply placed_sized; reflexivity. Qed.

Lemma noise_scenario_step (b : Build) :
  let st' := evolve_prewrap b noise_scenario in
  get (positions0 st') 0 = 1 + counting_stream (draw_x b 1 0) /\
  get (positions1 st') 0 = 1 + counting_stream (draw_y b 1 0) /\
  get (angles st') 0 =
    1 + gaussian 0 (dev_theta b noise_scenario)
          (counting_stream (draw_theta b 1 0)).
Proof.
  cbv zeta.
  destruct (evolve_prewrap_spec b noise_scenario 0 noise_scenario_sized)
    as (E0 & E1 & E2); [simpl; lia |].
  cbv zeta in E0, E1, E2.
  destruct (forces_no_potential noise_scenario noise_scenario_sized)
    as [F0 F1]; [reflexivity |].
  destruct noise_scenario_deviations as [Ht Hr].
  rewrite E0, E1, E2, F0, F1, Ht. unfold variate, gaussian, get. simpl.
  repeat split; lra.
Qed.

(** C2, at a failing input. One particle at (1, 1) with angle 1, noise
    deviations 1 (position) and 2 (angle), and the stream 1, 2, 3: in the
    MKL build of the first revision the angle becomes 1 + 1*1 = 2 (the x
    noise again), while the scalar build and the MKL build of the second
    revision give 1 + 2*3 = 7, the angle noise of the claim. *)
Theorem mkl_rev1_angle_noise_has_wrong_deviation :
  (get (positions0 (evolve_prewrap MklRev1 noise_scenario)) 0 = 2 /\
   get (positions1 (evolve_prewrap MklRev1 noise_scenario)) 0 = 3 /\
   get (angles (evolve_prewrap MklRev1 noise_scenario)) 0 = 2) /\
  get (angles (evolve_prewrap Scalar noise_scenario)) 0 = 7 /\
  get (angles (evolve_prewrap MklRev2 noise_scenario)) 0 = 7.
Proof.
  destruct noise_scenario_deviations as [Ht Hr].
  destruct (noise_scenario_step MklRev1) as (A0 & A1 & A2).
  destruct (noise_scenario_step Scalar) as (_ & _ & B2).
  destruct (noise_scenario_step MklRev2) as (_ & _ & C2).
  cbv zeta in *. rewrite A0, A1, A2, B2, C2.
  unfold dev_theta. rewrite Ht, Hr.
  unfold gaussian, counting_stream. simpl.
  repeat split; lra.
Qed.

(** C3 at a concrete input: the one-particle scenario. *)
Lemma mkl_rev1_angle_gets_x_noise_witness :
  (sized noise_scenario /\ (0 < n_parts noise_scenario)%nat) /\
  let st := noise_scenario in
  let st' := evolve_prewrap MklRev1 st in
  let xi := gaussian 0 (stddev_temp st) (variate st 0) in
  get (positions0 st') 0 =
    get (positions0 st) 0
    + dt st * (get (forces0 (calcInternalForces st)) 0
               + activity st * cos (get (angles st) 0)) + xi /\
  get (angles st') 0 = get (angles st) 0 + xi.
Proof.
  assert (Hn : (0 < n_parts noise_scenario)%nat) by (simpl; lia).
  split.
  - split; [exact noise_scenario_sized | exact Hn].
  - exact (mkl_rev1_angle_gets_x_noise noise_scenario 0%nat
             noise_scenario_sized Hn).
Defined.

End NoiseScenario.

(* ================================================================= *)
(** ** The constructor *)

Section CtorFacts.

Context {BI : BoxesImpl}.

Variable engine : Z -> nat -> R.

Lemma ctor_body_eq (s : State) (i : nat) :
  ctor_body s i =
  mkState (len s) (n_parts s) (pot_strength s) (activity s) (dt s) (boxes s)
    (stddev_temp s) (stddev_rot s) (rng s) (rng_pos s + 1 + 1 + 1)
    (upd i (fun _ => uniform_real 0 (len s) (variate s 0)) (positions0 s))
    (upd i (fun _ => uniform_real 0 (len s) (rng s (rng_pos s + 1 + 0)%nat))
       (positions1 s))
    (upd i (fun _ => uniform_real 0 (2 * PI)
                       (rng s (rng_pos s + 1 + 1 + 0)%nat))
       (angles s))
    (upd i (fun _ => 0) (forces0 s)) (upd i (fun _ => 0) (forces1 s))
    (aux_x s) (aux_y s) (aux_angle s).
Proof. destruct s. reflexivity. Qed.

Lemma ctor_loop (st : State) (m : nat) :
  sized st -> (m <= n_parts st)%nat ->
  let st' := fold_left ctor_body (seq 0 m) st in
  static st' = static st /\ rng st' = rng st /\ boxes st' = boxes st /\
  rng_pos st' = (rng_pos st + 3 * m)%nat /\
  sized st' /\
  (forall i, (i < m)%nat ->
     get (positions0 st') i = uniform_real 0 (len st) (variate st (3 * i)) /\
     get (positions1 st') i
       = uniform_real 0 (len st) (variate st (3 * i + 1)) /\
     get (angles st') i = uniform_real 0 (2 * PI) (variate st (3 * i + 2)) /\
     get (forces0 st') i = 0 /\ get (forces1 st') i = 0) /\
  (forall i, (m <= i)%nat ->
     get (forces0 st') i = get (forces0 st) i /\
     get (forces1 st') i = get (forces1 st) i).
Proof.
  intros Hsz. induction m as [| m IH]; intros Hm; cbv zeta.
  - simpl. rewrite Nat.add_0_r.
    split; [reflexivity |]. split; [reflexivity |]. split; [reflexivity |].
    split; [reflexivity |]. split; [exact Hsz |].
    split; [intros i Hi; lia | intros i Hi; split; reflexivity].
  - destruct IH as (Hst & Hrng & Hbx & Hpos & Hsz' & Hlt & Hge); [lia |].
    rewrite seq_S, fold_left_app. simpl.
    set (s := fold_left ctor_body (seq 0 m) st) in *.
    destruct (static_fields _ _ Hst) as (Hl & Hn & Hk & Ha & Hd & Hsdt & Hsdr).
    destruct Hsz' as (L0 & L1 & L2 & L3 & L4).
    rewrite ctor_body_eq. unfold sized, static, variate. simpl.
    rewrite Hl, Hn, Hk, Ha, Hd, Hsdt, Hsdr, Hrng, Hbx, Hpos.
    rewrite !upd_length.
    split; [reflexivity |]. split; [reflexivity |]. split; [reflexivity |].
    split; [lia |].
    split; [repeat split; lia |].
    split.
    + intros i Hi. destruct (Nat.eq_dec i m) as [-> | Hne].
      * rewrite !get_upd_same by lia. unfold variate.
        replace (rng_pos st + 3 * m + 0)%nat with (rng_pos st + 3 * m)%nat
          by lia.
        replace (rng_pos st + 3 * m + 1 + 0)%nat
          with (rng_pos st + (3 * m + 1))%nat by lia.
        replace (rng_pos st + 3 * m + 1 + 1 + 0)%nat
          with (rng_pos st + (3 * m + 2))%nat by lia.
        repeat split; reflexivity.
      * rewrite !get_upd_other by lia. apply Hlt. lia.
    + intros i Hi. rewrite !get_upd_other by lia. apply Hge. lia.
Qed.

(** The state that the constructor builds, in each build. *)
Lemma State_ctor_spec (b : Build) (L : R) (n : nat) (k T Dr v0 _dt : R)
    (now : Z) :
  let st := State_ctor engine b L n k T Dr v0 _dt now in
  static st = (L, n, k, v0, _dt, sqrt (2 * T * _dt), sqrt (2 * Dr * _dt)) /\
  rng st = engine now /\ rng_pos st = (3 * n)%nat /\
  boxes st = Boxes_ctor L n /\
  sized st /\
  (forall i, (i < n)%nat ->
     get (positions0 st) i = uniform_real 0 L (engine now (draw_x b n i)) /\
     get (positions1 st) i = uniform_real 0 L (engine now (draw_y b n i)) /\
     get (forces0 st) i = 0 /\ get (forces1 st) i = 0) /\
  (forall i, (i < n)%nat ->
     get (angles st) i =
     match b with
     | Scalar => uniform_real 0 (2 * PI) (engine now (3 * i + 2))
     | MklRev1 => uniform_real 0 (2 * PI) (engine now (n + n + i))
     | MklRev2 => 0
     end).
Proof.
  cbv zeta. destruct b; unfold State_ctor.
  - (* Scalar *)
    set (st0 := mkState _ _ _ _ _ _ _ _ _ _ _ _ _ _ _ _ _ _).
    assert (Hsz0 : sized st0).
    { unfold sized, st0. simpl. rewrite repeat_length. repeat split. }
    destruct (ctor_loop st0 n Hsz0 (le_n _))
      as (H1 & H2 & H3 & H4 & H5 & H6 & _).
    change (n_parts st0) with n in *.
    split; [rewrite H1; reflexivity |]. split; [rewrite H2; reflexivity |].
    split; [rewrite H4; reflexivity |]. split; [rewrite H3; reflexivity |].
    split; [exact H5 |].
    split; intros i Hi; destruct (H6 i Hi) as (E0 & E1 & E2 & E3 & E4).
    + rewrite E0, E1, E3, E4. repeat split; reflexivity.
    + rewrite E2. reflexivity.
  - (* MklRev1 *)
    unfold vdRngUniform, advance, variate, static, sized.
    cbn -[store get Nat.mul].
    rewrite !store_length_exact by apply repeat_length.
    rewrite repeat_length.
    split; [reflexivity |]. split; [reflexivity |]. split; [lia |].
    split; [reflexivity |]. split; [repeat split; reflexivity |].
    split; intros i Hi.
    + rewrite !get_store, !get_repeat by exact Hi.
      repeat split; reflexivity.
    + rewrite !get_store by exact Hi. reflexivity.
  - (* MklRev2 *)
    unfold vdRngUniform, advance, variate, static, sized.
    cbn -[store get Nat.mul].
    rewrite !store_length_exact by apply repeat_length.
    rewrite repeat_length.
    split; [reflexivity |]. split; [reflexivity |]. split; [lia |].
    split; [reflexivity |]. split; [repeat split; reflexivity |].
    split; intros i Hi.
    + rewrite !get_store, !get_repeat by exact Hi.
      repeat split; reflexivity.
    + rewrite get_repeat by exact Hi. reflexivity.
Qed.

(** C7, where the code departs from it. The MKL constructor of the second
    revision (line 287) writes the uniform angle draws to [ran_num_angle]:
    the stored angles stay at the zeros of [resize], whatever the engine
    delivers; the MKL constructor of the first revision stores the draws in
    [angles]. *)
Theorem mkl_rev2_ctor_leaves_angles_zero (L : R) (n : nat)
    (k T Dr v0 _dt : R) (now : Z) :
  angles (State_ctor engine MklRev2 L n k T Dr v0 _dt now) = repeat 0 n /\
  aux_angle (State_ctor engine MklRev2 L n k T Dr v0 _dt now) =
    map (fun i => uniform_real 0 (2 * PI) (engine now (n + n + i)%nat))
        (seq 0 n) /\
  angles (State_ctor engine MklRev1 L n k T Dr v0 _dt now) =
    map (fun i => uniform_real 0 (2 * PI) (engine now (n + n + i)%nat))
        (seq 0 n).
Proof.
  unfold State_ctor, vdRngUniform, advance, variate.
  cbn -[store get Nat.mul].
  rewrite !store_map by apply repeat_length.
  repeat split; reflexivity.
Qed.

End CtorFacts.

(* ================================================================= *)
(** ** Determinism given the random stream *)

Section StreamFacts.

Context {BI : BoxesImpl}.

Variable engine : Z -> nat -> R.

Lemma draw_bound (b : Build) (n i : nat) :
  (i < n)%nat ->
  (draw_x b n i < 3 * n)%nat /\ (draw_y b n i < 3 * n)%nat /\
  (draw_theta b n i < 3 * n)%nat.
Proof. intros Hi. destruct b; simpl; lia. Qed.

Lemma apply_pair_agree (s1 s2 : State) (l : list (nat * nat))
    (F : vec * vec) :
  static s1 = static s2 -> positions0 s1 = positions0 s2 ->
  positions1 s1 = positions1 s2 ->
  fold_left (apply_pair s1) l F = fold_left (apply_pair s2) l F.
Proof.
  intros Hs H0 H1. revert F.
  induction l as [| p l IH]; intros F; simpl; [reflexivity |].
  rewrite IH. f_equal. unfold apply_pair.
  rewrite (pair_force_frame s2 s1); auto.
Qed.

(** The forces depend on the positions, the parameters and the cell list
    only. *)
Lemma calcInternalForces_agree (N : nat) (s1 s2 : State) :
  sized s1 -> sized s2 -> agree N s1 s2 ->
  forces0 (calcInternalForces s1) = forces0 (calcInternalForces s2) /\
  forces1 (calcInternalForces s1) = forces1 (calcInternalForces s2).
Proof.
  intros Hsz1 Hsz2 (Hst & Hbx & _ & Hp0 & Hp1 & _).
  rewrite !calcInternalForces_eq by assumption. cbv zeta.
  destruct (static_fields _ _ Hst) as (_ & Hn & _).
  rewrite Hbx, Hp0, Hp1, Hn.
  rewrite (apply_pair_agree s1 s2) by assumption.
  set (F := fold_left _ _ _).
  destruct s1, s2; split; reflexivity.
Qed.





End StreamFacts.

Module StreamScenario.

#[local] Existing Instance Grid.impl.

(** The constructor takes no seed: two constructions with the same
    physical parameters that read the clock values 0 and 1 seed the toy
    engine differently and place their particle at x = 0 and at x = 2. *)
Lemma same_parameters_different_states :
  positions0 (State_ctor toy_engine Scalar 4 1 1 0 0 0 1 0) = [0] /\
  positions0 (State_ctor toy_engine Scalar 4 1 1 0 0 0 1 1) = [2] /\
  [0] <> [2].
Proof.
  split; [| split].
  - unfold State_ctor. simpl.
    unfold uniform_real, variate, toy_engine. simpl. f_equal. lra.
  - unfold State_ctor. simpl.
    unfold uniform_real, variate, toy_engine. simpl. f_equal. lra.
  - intros H. injection H. lra.
Qed.

End StreamScenario.

(* ================================================================= *)
(** * Further properties of the engine *)

(** ** Shared facts *)

Section StepShape.

Context {BI : BoxesImpl}.

(** The wrap leaves a value of the range alone. *)
Lemma pbc_small (x L : R) : 0 <= x < L -> pbc x L = x.
Proof.
  intros [Hlo Hhi]. unfold pbc.
  rewrite (floor_unique (x / L) 0).
  - lra.
  - assert (HL : 0 < L) by lra.
    assert (Hx : x = x / L * L) by (field; lra). split; nra.
Qed.

(** A step, particle by particle: the wrap of the update. *)
Lemma evolve_pointwise (b : Build) (st : State) (i : nat) :
  sized st -> (i < n_parts st)%nat ->
  get (positions0 (evolve b st)) i
    = pbc (get (positions0 (evolve_prewrap b st)) i) (len st) /\
  get (positions1 (evolve b st)) i
    = pbc (get (positions1 (evolve_prewrap b st)) i) (len st) /\
  get (angles (evolve b st)) i
    = pbc (get (angles (evolve_prewrap b st)) i) (2 * PI).
Proof.
  intros Hsz Hi. unfold evolve.
  destruct (evolve_prewrap_frame b st Hsz)
    as (P1 & _ & _ & _ & _ & _ & P7). cbv zeta in *.
  destruct (static_fields _ _ P1) as (Hl & Hn & _).
  destruct (enforcePBC_spec (evolve_prewrap b st) P7)
    as (_ & _ & _ & _ & _ & _ & _ & E8). cbv zeta in *.
  destruct (E8 i) as (E0 & E1 & E2); [lia |].
  rewrite E0, E1, E2, Hl. repeat split; reflexivity.
Qed.

(** The arrays keep their sizes through a step. *)
Lemma evolve_lengths (b : Build) (st : State) :
  sized st ->
  length (positions0 (evolve b st)) = n_parts st /\
  length (positions1 (evolve b st)) = n_parts st /\
  length (angles (evolve b st)) = n_parts st /\
  length (forces0 (evolve b st)) = n_parts st /\
  length (forces1 (evolve b st)) = n_parts st.
Proof.
  intros Hsz.
  destruct (evolve_frame b st Hsz) as (F1 & _ & _ & _ & _ & F6).
  cbv zeta in *. destruct (static_fields _ _ F1) as (_ & Hn & _).
  destruct F6 as (L0 & L1 & L2 & L3 & L4).
  rewrite <- Hn. repeat split; assumption.
Qed.

(** The cell list after a step is the one rebuilt from the positions
    before it. *)
Lemma evolve_boxes (b : Build) (st : State) :
  sized st ->
  boxes (evolve b st) = update (boxes st) (positions0 st) (positions1 st).
Proof.
  intros Hsz. unfold evolve.
  destruct (evolve_prewrap_frame b st Hsz)
    as (_ & _ & _ & _ & _ & P6 & P7). cbv zeta in *.
  destruct (enforcePBC_spec (evolve_prewrap b st) P7)
    as (_ & _ & E3 & _). cbv zeta in *.
  rewrite E3. exact P6.
Qed.

(** Both force components sum to zero after [calcInternalForces], over
    every cell list whose cells list particles of the ensemble. *)
Lemma forces_sum_zero (st : State) :
  sized st ->
  Forall (Forall (fun i => (i < n_parts st)%nat))
         (getPartsOfBox (update (boxes st) (positions0 st) (positions1 st))) ->
  vsum (forces0 (calcInternalForces st)) = 0 /\
  vsum (forces1 (calcInternalForces st)) = 0.
Proof.
  intros Hsz Hparts.
  destruct (calcInternalForces_offdiag st Hsz) as [H0 H1].
  cbv zeta in H0, H1. rewrite H0, H1.
  rewrite <- visits_offdiag.
  destruct (visits_vsum st (n_parts st)
              (pairs_visited
                 (getNBoxes (update (boxes st) (positions0 st) (positions1 st)))
                 (getNbrsPos (update (boxes st) (positions0 st) (positions1 st)))
                 (getPartsOfBox
                    (update (boxes st) (positions0 st) (positions1 st))))
              (repeat 0 (n_parts st), repeat 0 (n_parts st))) as [S0 S1].
  - apply repeat_length.
  - apply repeat_length.
  - apply pairs_visited_range. exact Hparts.
  - rewrite S0, S1. simpl. rewrite vsum_repeat_zero. split; reflexivity.
Qed.

(** Visits that carry no force leave the force arrays as they are. *)
Lemma visits_without_force (st : State) (l : list (nat * nat))
    (F : vec * vec) :
  Forall (fun p => pair_force st (fst p) (snd p) = (0, 0)) l ->
  fold_left (apply_pair st) l F = F.
Proof.
  revert F. induction l as [| p l IH]; intros F Hall; simpl; [reflexivity |].
  inversion Hall as [| p' l' Hp Hrest]; subst.
  rewrite IH by exact Hrest. unfold apply_pair. rewrite Hp. simpl.
  rewrite !(upd_id _ (fun x => x + 0)) by (intros; lra).
  rewrite !(upd_id _ (fun x => x - 0)) by (intros; lra).
  destruct F; reflexivity.
Qed.

(** The sum of an array that is another one plus a multiple of a third. *)
Lemma vsum_pointwise (c : R) (b a f : vec) :
  length a = length b -> length f = length b ->
  (forall i, (i < length b)%nat -> get a i = get b i + c * get f i) ->
  vsum a = vsum b + c * vsum f.
Proof.
  revert a f. induction b as [| y b IH]; intros [| x a] [| z f] Ha Hf Hpt;
    simpl in Ha, Hf; try discriminate.
  - simpl. lra.
  - assert (H0 : x = y + c * z) by (apply (Hpt 0%nat); simpl; lia).
    assert (Hrest : vsum a = vsum b + c * vsum f).
    { apply IH; try lia. intros i Hi. apply (Hpt (S i)). simpl. lia. }
    unfold vsum in *. simpl. rewrite Hrest, H0. lra.
Qed.

End StepShape.

(* ================================================================= *)
(** ** What a run keeps, reads and never does *)

Section EngineProperties.

Context {BI : BoxesImpl}.

Variable engine : Z -> nat -> R.

(** X1. Whatever the build, [m] calls of [evolve] leave the parameters and
    the array sizes as they are and read exactly [3 * n_parts * m] variates
    of the stream, which itself is not changed. *)
Theorem evolve_n_bookkeeping (b : Build) (m : nat) (st : State) :
  sized st ->
  static (evolve_n b m st) = static st /\ rng (evolve_n b m st) = rng st /\
  rng_pos (evolve_n b m st) = (rng_pos st + 3 * n_parts st * m)%nat /\
  sized (evolve_n b m st).
Proof.
  revert st. induction m as [| m IH]; intros st Hsz; simpl.
  - repeat split; try apply Hsz. lia.
  - destruct (evolve_frame b st Hsz) as (F1 & F2 & F3 & _ & _ & F6).
    cbv zeta in *. destruct (static_fields _ _ F1) as (_ & Hn & _).
    destruct (IH (evolve b st) F6) as (I1 & I2 & I3 & I4).
    split; [congruence |]. split; [congruence |].
    split; [rewrite I3, F3, Hn; lia | exact I4].
Qed.

(** X2. When the box has a positive side and the engine delivers unit
    variates of [[0, 1)], the constructor of every build leaves arrays of
    [n] entries, every particle inside the box, every angle in
    [[0, 2*pi)] and every force zero. *)
Theorem ctor_particles_in_box (b : Build) (L : R) (n : nat)
    (k T Dr v0 _dt : R) (now : Z) (i : nat) :
  0 < L -> (forall j, (j < 3 * n)%nat -> 0 <= engine now j < 1) ->
  (i < n)%nat ->
  let st := State_ctor engine b L n k T Dr v0 _dt now in
  sized st /\ n_parts st = n /\
  0 <= get (positions0 st) i < L /\ 0 <= get (positions1 st) i < L /\
  0 <= get (angles st) i < 2 * PI /\
  get (forces0 st) i = 0 /\ get (forces1 st) i = 0.
Proof.
  intros HL Hunit Hi st.
  destruct (State_ctor_spec engine b L n k T Dr v0 _dt now)
    as (A1 & _ & _ & _ & A5 & A6 & A7). cbv zeta in *. fold st in A1, A5, A6, A7.
  destruct (A6 i Hi) as (X0 & X1 & X2 & X3).
  destruct (draw_bound b n i Hi) as (D0 & D1 & D2).
  assert (H2pi : 0 < 2 * PI) by (pose proof PI_RGT_0; lra).
  assert (Hin : forall a u, 0 < a -> 0 <= u < 1 ->
                            0 <= uniform_real 0 a u < a).
  { intros a u Ha Hu. unfold uniform_real. split; nra. }
  split; [exact A5 |].
  split; [unfold static in A1; congruence |].
  rewrite X0, X1, X2, X3, (A7 i Hi).
  split; [apply Hin; [exact HL | apply Hunit; lia] |].
  split; [apply Hin; [exact HL | apply Hunit; lia] |].
  split; [| split; reflexivity].
  destruct b.
  - apply Hin; [exact H2pi | apply Hunit; lia].
  - apply Hin; [exact H2pi | apply Hunit; lia].
  - lra.
Qed.

(** X3. [calcInternalForces] starts from zero: the forces it leaves do not
    depend on the forces it finds. *)
Theorem forces_do_not_carry_over (st : State) (f0 f1 : vec) :
  sized st -> length f0 = n_parts st -> length f1 = n_parts st ->
  forces0 (calcInternalForces (wr Forces1 f1 (wr Forces0 f0 st)))
    = forces0 (calcInternalForces st) /\
  forces1 (calcInternalForces (wr Forces1 f1 (wr Forces0 f0 st)))
    = forces1 (calcInternalForces st).
Proof.
  intros Hsz H0 H1.
  set (st' := wr Forces1 f1 (wr Forces0 f0 st)).
  assert (Hsz' : sized st').
  { destruct Hsz as (S0 & S1 & S2 & _ & _).
    subst st'. destruct st; unfold sized in *; simpl in *.
    repeat split; assumption. }
  assert (Hst : static st' = static st)
    by (subst st'; rewrite !static_wr; reflexivity).
  assert (Hp0 : positions0 st' = positions0 st)
    by (subst st'; destruct st; reflexivity).
  assert (Hp1 : positions1 st' = positions1 st)
    by (subst st'; destruct st; reflexivity).
  assert (Hbx : boxes st' = boxes st)
    by (subst st'; destruct st; reflexivity).
  destruct (calcInternalForces_offdiag st Hsz) as [A0 A1].
  destruct (calcInternalForces_offdiag st' Hsz') as [B0 B1].
  cbv zeta in *. destruct (static_fields _ _ Hst) as (_ & Hn & _).
  rewrite A0, A1, B0, B1, Hbx, Hp0, Hp1, Hn.
  rewrite (apply_pair_agree st' st) by assumption.
  split; reflexivity.
Qed.

(** X4. When no two particles are closer than the cutoff (no pair has a
    squared minimum-image distance in the open interval (0, 1)), every
    force is zero after [calcInternalForces]. *)
Theorem no_force_beyond_cutoff (st : State) :
  sized st ->
  Forall (Forall (fun i => (i < n_parts st)%nat))
         (getPartsOfBox (update (boxes st) (positions0 st) (positions1 st))) ->
  (forall i j, (i < n_parts st)%nat -> (j < n_parts st)%nat ->
               ~ 0 < pair_dr2 st i j < 1) ->
  forces0 (calcInternalForces st) = repeat 0 (n_parts st) /\
  forces1 (calcInternalForces st) = repeat 0 (n_parts st).
Proof.
  intros Hsz Hparts Hfar.
  destruct (calcInternalForces_offdiag st Hsz) as [A0 A1].
  cbv zeta in *. rewrite A0, A1, <- visits_offdiag.
  rewrite visits_without_force; [split; reflexivity |].
  pose proof (pairs_visited_range (n_parts st)
                (getNBoxes (update (boxes st) (positions0 st) (positions1 st)))
                (getNbrsPos (update (boxes st) (positions0 st) (positions1 st)))
                _ Hparts) as Hrange.
  apply Forall_forall. intros [i j] Hin.
  rewrite Forall_forall in Hrange. destruct (Hrange _ Hin) as [Hi Hj].
  simpl in *. apply pair_force_outside. apply Hfar; assumption.
Qed.

(** X5. Without potential ([k = 0]) the particles do not interact, over
    any cell list: before the wrap particle [i] has moved by its own
    self-propulsion and its own noise only. *)
Theorem free_particles_move_alone (b : Build) (st : State) (i : nat) :
  sized st -> pot_strength st = 0 -> (i < n_parts st)%nat ->
  get (positions0 (evolve_prewrap b st)) i =
    get (positions0 st) i + dt st * (activity st * cos (get (angles st) i))
    + gaussian 0 (stddev_temp st) (variate st (draw_x b (n_parts st) i)) /\
  get (positions1 (evolve_prewrap b st)) i =
    get (positions1 st) i + dt st * (activity st * sin (get (angles st) i))
    + gaussian 0 (stddev_temp st) (variate st (draw_y b (n_parts st) i)).
Proof.
  intros Hsz Hk Hi.
  destruct (evolve_prewrap_spec b st i Hsz Hi) as (E0 & E1 & _).
  destruct (forces_no_potential st Hsz Hk) as [F0 F1].
  cbv zeta in *. rewrite E0, E1, F0, F1, !get_repeat by exact Hi.
  split; ring.
Qed.

(** X6. With no self-propulsion and no thermal noise a step moves no
    centre of mass: before the wrap the x coordinates, and the y
    coordinates, sum to what they summed before the step. *)
Theorem centroid_conserved (b : Build) (st : State) :
  sized st ->
  Forall (Forall (fun i => (i < n_parts st)%nat))
         (getPartsOfBox (update (boxes st) (positions0 st) (positions1 st))) ->
  activity st = 0 -> stddev_temp st = 0 ->
  vsum (positions0 (evolve_prewrap b st)) = vsum (positions0 st) /\
  vsum (positions1 (evolve_prewrap b st)) = vsum (positions1 st).
Proof.
  intros Hsz Hparts Ha Hsd.
  destruct (forces_sum_zero st Hsz Hparts) as [Z0 Z1].
  destruct (calcInternalForces_frame st Hsz)
    as (C1 & _ & _ & _ & _ & _ & _ & C8).
  destruct (evolve_prewrap_frame b st Hsz)
    as (P1 & _ & _ & _ & _ & _ & P7). cbv zeta in *.
  destruct (static_fields _ _ C1) as (_ & Cn & _).
  destruct (static_fields _ _ P1) as (_ & Pn & _).
  destruct Hsz as (S0 & S1 & S2 & S3 & S4).
  destruct C8 as (_ & _ & _ & K3 & K4).
  destruct P7 as (Q0 & Q1 & _).
  assert (Hsz : sized st) by (repeat split; assumption).
  split.
  - rewrite (vsum_pointwise (dt st) (positions0 st) _
               (forces0 (calcInternalForces st))); try congruence.
    + rewrite Z0. ring.
    + intros i Hi.
      destruct (evolve_prewrap_spec b st i Hsz) as (E0 & _ & _); [lia |].
      cbv zeta in E0. rewrite E0, Ha, Hsd, gaussian_zero_dev. ring.
  - rewrite (vsum_pointwise (dt st) (positions1 st) _
               (forces1 (calcInternalForces st))); try congruence.
    + rewrite Z1. ring.
    + intros i Hi.
      destruct (evolve_prewrap_spec b st i Hsz) as (_ & E1 & _); [lia |].
      cbv zeta in E1. rewrite E1, Ha, Hsd, gaussian_zero_dev. ring.
Qed.

(** X7. After [evolve] the stored forces are the forces of the positions
    before the step (the step does not recompute them at the new
    positions), and both components sum to zero. *)
Theorem stored_forces_after_step (b : Build) (st : State) :
  sized st ->
  Forall (Forall (fun i => (i < n_parts st)%nat))
         (getPartsOfBox (update (boxes st) (positions0 st) (positions1 st))) ->
  forces0 (evolve b st) = forces0 (calcInternalForces st) /\
  forces1 (evolve b st) = forces1 (calcInternalForces st) /\
  vsum (forces0 (evolve b st)) = 0 /\ vsum (forces1 (evolve b st)) = 0.
Proof.
  intros Hsz Hparts.
  destruct (evolve_frame b st Hsz) as (_ & _ & _ & F4 & F5 & _).
  destruct (forces_sum_zero st Hsz Hparts) as [Z0 Z1].
  cbv zeta in *. rewrite F4, F5. repeat split; assumption.
Qed.

End EngineProperties.

(* ================================================================= *)
(** ** The builds compared *)

Section BuildProperties.

Context {BI : BoxesImpl}.

(** X8. In the scalar build and in the MKL build of the second revision a
    step is, before the wrap, the Euler-Maruyama update of the freshly
    computed forces, with sine and cosine at the angle before the step,
    position noise of deviation [stddev_temp], angle noise of deviation
    [stddev_rot], and three different variates of the stream for particle
    [i], all among the next [3 n]. *)
Theorem euler_maruyama_fresh_noise (b : Build) (st : State) (i : nat) :
  b <> MklRev1 -> sized st -> (i < n_parts st)%nat ->
  let n := n_parts st in
  let st' := evolve_prewrap b st in
  (get (positions0 st') i =
     get (positions0 st) i
     + dt st * (get (forces0 (calcInternalForces st)) i
                + activity st * cos (get (angles st) i))
     + gaussian 0 (stddev_temp st) (variate st (draw_x b n i)) /\
   get (positions1 st') i =
     get (positions1 st) i
     + dt st * (get (forces1 (calcInternalForces st)) i
                + activity st * sin (get (angles st) i))
     + gaussian 0 (stddev_temp st) (variate st (draw_y b n i)) /\
   get (angles st') i =
     get (angles st) i
     + gaussian 0 (stddev_rot st) (variate st (draw_theta b n i))) /\
  (draw_x b n i <> draw_y b n i /\ draw_x b n i <> draw_theta b n i /\
   draw_y b n i <> draw_theta b n i /\
   (draw_x b n i < 3 * n)%nat /\ (draw_y b n i < 3 * n)%nat /\
   (draw_theta b n i < 3 * n)%nat).
Proof.
  intros Hb Hsz Hi n st'.
  destruct (evolve_prewrap_spec b st i Hsz Hi) as (E0 & E1 & E2).
  cbv zeta in *. fold n in E0, E1, E2.
  rewrite (angle_noise_deviation b st Hb) in E2.
  destruct (draws_fresh b n i i Hb Hi Hi) as (D0 & D1 & D2 & D3 & D4 & D5 & _).
  split.
  - split; [exact E0 | split; [exact E1 | exact E2]].
  - repeat split; assumption.
Qed.

(** X9. The scalar build and the MKL build of the second revision differ
    in the order of their draws only: from two states that agree on
    everything but the stream, the scalar step reading the variates
    [3i], [3i+1], [3i+2] that the MKL step reads at [i], [n+i], [2n+i]
    leaves the same positions, angles and forces. *)
Theorem scalar_mkl2_same_up_to_draw_order (s1 s2 : State) :
  sized s1 -> sized s2 -> agree 0 s1 s2 ->
  (forall i, (i < n_parts s1)%nat ->
     variate s1 (3 * i) = variate s2 i /\
     variate s1 (3 * i + 1) = variate s2 (n_parts s1 + i) /\
     variate s1 (3 * i + 2) = variate s2 (n_parts s1 + n_parts s1 + i)) ->
  positions0 (evolve Scalar s1) = positions0 (evolve MklRev2 s2) /\
  positions1 (evolve Scalar s1) = positions1 (evolve MklRev2 s2) /\
  angles (evolve Scalar s1) = angles (evolve MklRev2 s2) /\
  forces0 (evolve Scalar s1) = forces0 (evolve MklRev2 s2) /\
  forces1 (evolve Scalar s1) = forces1 (evolve MklRev2 s2).
Proof.
  intros Hsz1 Hsz2 Hag Hdraw.
  destruct (calcInternalForces_agree 0 s1 s2 Hsz1 Hsz2 Hag) as [HF0 HF1].
  destruct Hag as (Hst & Hbx & Hpos & Hp0 & Hp1 & Han & _ & _ & _).
  destruct (static_fields _ _ Hst) as (Hl & Hn & Hk & Ha & Hd & Hsdt & Hsdr).
  destruct (evolve_lengths Scalar s1 Hsz1) as (L0 & L1 & L2 & _).
  destruct (evolve_lengths MklRev2 s2 Hsz2) as (M0 & M1 & M2 & _).
  destruct (evolve_frame Scalar s1 Hsz1) as (_ & _ & _ & A4 & A5 & _).
  destruct (evolve_frame MklRev2 s2 Hsz2) as (_ & _ & _ & B4 & B5 & _).
  cbv zeta in *.
  assert (Hpt : forall i, (i < n_parts s1)%nat ->
            get (positions0 (evolve Scalar s1)) i
              = get (positions0 (evolve MklRev2 s2)) i /\
            get (positions1 (evolve Scalar s1)) i
              = get (positions1 (evolve MklRev2 s2)) i /\
            get (angles (evolve Scalar s1)) i
              = get (angles (evolve MklRev2 s2)) i).
  { intros i Hi.
    destruct (evolve_pointwise Scalar s1 i Hsz1 Hi) as (X0 & X1 & X2).
    destruct (evolve_pointwise MklRev2 s2 i Hsz2) as (Y0 & Y1 & Y2); [lia |].
    destruct (evolve_prewrap_spec Scalar s1 i Hsz1 Hi) as (U0 & U1 & U2).
    destruct (evolve_prewrap_spec MklRev2 s2 i Hsz2) as (V0 & V1 & V2);
      [lia |].
    cbv zeta in *. unfold draw_x, draw_y, draw_theta, dev_theta in *.
    destruct (Hdraw i Hi) as (R0 & R1 & R2).
    rewrite X0, X1, X2, Y0, Y1, Y2, U0, U1, U2, V0, V1, V2.
    rewrite R0, R1, R2, HF0, HF1, Hp0, Hp1, Han, Hl, Ha, Hd, Hsdt, Hsdr, Hn.
    repeat split; reflexivity. }
  split; [apply vec_ext; [congruence |];
          intros i Hi; apply Hpt; rewrite <- L0; exact Hi |].
  split; [apply vec_ext; [congruence |];
          intros i Hi; apply Hpt; rewrite <- L1; exact Hi |].
  split; [apply vec_ext; [congruence |];
          intros i Hi; apply Hpt; rewrite <- L2; exact Hi |].
  split; congruence.
Qed.

(** X10. The two MKL revisions move the particles alike: from one state
    a step of either leaves the same positions and the same forces (they
    differ in the angles only). *)
Theorem mkl_revisions_move_alike (st : State) :
  sized st ->
  positions0 (evolve MklRev1 st) = positions0 (evolve MklRev2 st) /\
  positions1 (evolve MklRev1 st) = positions1 (evolve MklRev2 st) /\
  forces0 (evolve MklRev1 st) = forces0 (evolve MklRev2 st) /\
  forces1 (evolve MklRev1 st) = forces1 (evolve MklRev2 st).
Proof.
  intros Hsz.
  destruct (evolve_lengths MklRev1 st Hsz) as (L0 & L1 & _).
  destruct (evolve_lengths MklRev2 st Hsz) as (M0 & M1 & _).
  destruct (evolve_frame MklRev1 st Hsz) as (_ & _ & _ & A4 & A5 & _).
  destruct (evolve_frame MklRev2 st Hsz) as (_ & _ & _ & B4 & B5 & _).
  cbv zeta in *.
  assert (Hpt : forall i, (i < n_parts st)%nat ->
            get (positions0 (evolve MklRev1 st)) i
              = get (positions0 (evolve MklRev2 st)) i /\
            get (positions1 (evolve MklRev1 st)) i
              = get (positions1 (evolve MklRev2 st)) i).
  { intros i Hi.
    destruct (evolve_pointwise MklRev1 st i Hsz Hi) as (X0 & X1 & _).
    destruct (evolve_pointwise MklRev2 st i Hsz Hi) as (Y0 & Y1 & _).
    destruct (evolve_prewrap_spec MklRev1 st i Hsz Hi) as (U0 & U1 & _).
    destruct (evolve_prewrap_spec MklRev2 st i Hsz Hi) as (V0 & V1 & _).
    cbv zeta in *. rewrite X0, X1, Y0, Y1, U0, U1, V0, V1.
    split; reflexivity. }
  split; [apply vec_ext; [congruence |];
          intros i Hi; apply Hpt; rewrite <- L0; exact Hi |].
  split; [apply vec_ext; [congruence |];
          intros i Hi; apply Hpt; rewrite <- L1; exact Hi |].
  split; congruence.
Qed.

(** X11. Without rotational diffusion (angle noise of deviation 0) the
    scalar build and the MKL build of the second revision never turn a
    particle: a step leaves every angle of [[0, 2*pi)] as it is. *)
Theorem orientation_fixed_without_rotational_noise (b : Build) (st : State) :
  b <> MklRev1 -> sized st -> stddev_rot st = 0 ->
  (forall i, (i < n_parts st)%nat -> 0 <= get (angles st) i < 2 * PI) ->
  angles (evolve b st) = angles st.
Proof.
  intros Hb Hsz Hsd Hrange.
  destruct (evolve_lengths b st Hsz) as (_ & _ & L2 & _).
  pose proof Hsz as (_ & _ & S2 & _).
  apply vec_ext; [congruence |].
  intros i Hi. rewrite L2 in Hi.
  destruct (evolve_pointwise b st i Hsz Hi) as (_ & _ & X2).
  destruct (evolve_prewrap_spec b st i Hsz Hi) as (_ & _ & U2).
  cbv zeta in *.
  rewrite X2, U2, (angle_noise_deviation b st Hb), Hsd, gaussian_zero_dev.
  rewrite Rplus_0_r. apply pbc_small. apply Hrange. exact Hi.
Qed.

(** One step of the particle that is alone. *)
Lemma single_particle_step (b : Build) (st : State) :
  sized st -> n_parts st = 1%nat ->
  activity st = 0 -> stddev_temp st = 0 -> stddev_rot st = 0 ->
  0 <= get (positions0 st) 0 < len st ->
  0 <= get (positions1 st) 0 < len st ->
  0 <= get (angles st) 0 < 2 * PI ->
  Forall (Forall (fun i => (i < 1)%nat))
         (getPartsOfBox (update (boxes st) (positions0 st) (positions1 st))) ->
  positions0 (evolve b st) = positions0 st /\
  positions1 (evolve b st) = positions1 st /\
  angles (evolve b st) = angles st.
Proof.
  intros Hsz Hn Ha Hsdt Hsdr Hx Hy Ht Hparts.
  assert (Hforces : forces0 (calcInternalForces st) = repeat 0 (n_parts st) /\
                    forces1 (calcInternalForces st) = repeat 0 (n_parts st)).
  { destruct (calcInternalForces_offdiag st Hsz) as [A0 A1].
    cbv zeta in *. rewrite A0, A1, <- visits_offdiag.
    rewrite visits_without_force; [split; reflexivity |].
    pose proof (pairs_visited_range 1
                  (getNBoxes
                     (update (boxes st) (positions0 st) (positions1 st)))
                  (getNbrsPos
                     (update (boxes st) (positions0 st) (positions1 st)))
                  _ Hparts) as Hrange.
    apply Forall_forall. intros [i j] Hin.
    rewrite Forall_forall in Hrange. destruct (Hrange _ Hin) as [Hi Hj].
    simpl in *. replace i with 0%nat by lia. replace j with 0%nat by lia.
    apply pair_force_self. }
  destruct Hforces as [F0 F1].
  destruct (evolve_lengths b st Hsz) as (L0 & L1 & L2 & _).
  pose proof Hsz as (S0 & S1 & S2 & _).
  assert (H0 : (0 < n_parts st)%nat) by lia.
  destruct (evolve_pointwise b st 0 Hsz H0) as (X0 & X1 & X2).
  destruct (evolve_prewrap_spec b st 0 Hsz H0) as (U0 & U1 & U2).
  cbv zeta in *.
  assert (Hdev : dev_theta b st = 0) by (destruct b; simpl; assumption).
  rewrite U0, F0, Ha, Hsdt, gaussian_zero_dev, get_repeat in X0 by exact H0.
  rewrite U1, F1, Ha, Hsdt, gaussian_zero_dev, get_repeat in X1 by exact H0.
  rewrite U2, Hdev, gaussian_zero_dev in X2.
  replace (get (positions0 st) 0 + dt st * (0 + 0 * cos (get (angles st) 0))
           + 0) with (get (positions0 st) 0) in X0 by ring.
  replace (get (positions1 st) 0 + dt st * (0 + 0 * sin (get (angles st) 0))
           + 0) with (get (positions1 st) 0) in X1 by ring.
  rewrite Rplus_0_r in X2.
  rewrite pbc_small in X0 by exact Hx.
  rewrite pbc_small in X1 by exact Hy.
  rewrite pbc_small in X2 by exact Ht.
  split; [| split]; (apply vec_ext; [congruence |]); intros i Hi;
    replace i with 0%nat by lia; assumption.
Qed.

(** X12. A particle alone in the box, without self-propulsion and without
    noise, stays where it is and keeps its orientation through any number
    of steps, whatever the potential strength, over every cell list that
    keeps listing particles of the ensemble only. *)
Theorem single_particle_rests (Inv : Boxes -> Prop) (b : Build) (m : nat)
    (st : State) :
  sized st -> n_parts st = 1%nat ->
  activity st = 0 -> stddev_temp st = 0 -> stddev_rot st = 0 ->
  0 <= get (positions0 st) 0 < len st ->
  0 <= get (positions1 st) 0 < len st ->
  0 <= get (angles st) 0 < 2 * PI ->
  Inv (boxes st) ->
  (forall bx p0 p1, Inv bx ->
     Inv (update bx p0 p1) /\
     Forall (Forall (fun i => (i < 1)%nat))
            (getPartsOfBox (update bx p0 p1))) ->
  positions0 (evolve_n b m st) = positions0 st /\
  positions1 (evolve_n b m st) = positions1 st /\
  angles (evolve_n b m st) = angles st.
Proof.
  intros Hsz Hn Ha Hsdt Hsdr Hx Hy Ht Hinv Hupd. revert st Hsz Hn Ha Hsdt
    Hsdr Hx Hy Ht Hinv.
  induction m as [| m IH]; intros st Hsz Hn Ha Hsdt Hsdr Hx Hy Ht Hinv;
    simpl; [repeat split; reflexivity |].
  destruct (Hupd (boxes st) (positions0 st) (positions1 st) Hinv)
    as [Hinv' Hparts].
  destruct (single_particle_step b st Hsz Hn Ha Hsdt Hsdr Hx Hy Ht Hparts)
    as (E0 & E1 & E2).
  destruct (evolve_frame b st Hsz) as (F1 & _ & _ & _ & _ & F6).
  cbv zeta in *.
  destruct (static_fields _ _ F1) as (Hl & Hn' & _ & Ha' & _ & Hsdt' & Hsdr').
  assert (Gn : n_parts (evolve b st) = 1%nat) by congruence.
  assert (Ga : activity (evolve b st) = 0) by congruence.
  assert (Gsdt : stddev_temp (evolve b st) = 0) by congruence.
  assert (Gsdr : stddev_rot (evolve b st) = 0) by congruence.
  assert (Gx : 0 <= get (positions0 (evolve b st)) 0 < len (evolve b st))
    by (rewrite E0, Hl; exact Hx).
  assert (Gy : 0 <= get (positions1 (evolve b st)) 0 < len (evolve b st))
    by (rewrite E1, Hl; exact Hy).
  assert (Gt : 0 <= get (angles (evolve b st)) 0 < 2 * PI)
    by (rewrite E2; exact Ht).
  assert (Ginv : Inv (boxes (evolve b st)))
    by (rewrite (evolve_boxes b st Hsz); exact Hinv').
  destruct (IH (evolve b st) F6 Gn Ga Gsdt Gsdr Gx Gy Gt Ginv)
    as (I0 & I1 & I2).
  repeat split; congruence.
Qed.

End BuildProperties.

(* ================================================================= *)
(** ** Visits and parameter checks *)

(** X13. Whatever the neighbour table: two particles that the cells list
    alike (two particles of one cell of a partition) are visited an even
    number of times, as [(i, j)] as often as as [(j, i)]; with the
    Newton's-third-law update of both particles at every visit their pair
    force is counted that many times. *)
Theorem same_cell_pair_visits_even (n_boxes : nat)
    (nbrs parts : list (list nat)) (i j : nat) :
  (forall b, occ i (nth b parts []) = occ j (nth b parts [])) ->
  (visit_count i j (pairs_visited n_boxes nbrs parts)
   + visit_count j i (pairs_visited n_boxes nbrs parts))%nat =
  (2 * visit_count i j (pairs_visited n_boxes nbrs parts))%nat.
Proof.
  intros Hsame.
  rewrite <- (same_cell_visits_symmetric n_boxes nbrs parts i j Hsame). lia.
Qed.

Module CheckFacts.
Import Simul.

(** X14. The two parameter checks differ at zero only: whatever
    [notPositive] rejects [notStrPositive] rejects, and [notStrPositive]
    rejects a value that [notPositive] accepts exactly when the value is
    zero; a check prints a line exactly when it rejects. *)
Theorem checks_differ_only_at_zero :
  (forall (a : Z) (name : string),
     (fst (notPositive a name) = true ->
      fst (notStrPositive a name) = true) /\
     (fst (notStrPositive a name) = true /\
      fst (notPositive a name) = false <-> a = 0%Z) /\
     (snd (notPositive a name) = []
      <-> fst (notPositive a name) = false) /\
     (snd (notStrPositive a name) = []
      <-> fst (notStrPositive a name) = false)) /\
  (forall (a : R) (name : string),
     (fst (notPositive a name) = true ->
      fst (notStrPositive a name) = true) /\
     (fst (notStrPositive a name) = true /\
      fst (notPositive a name) = false <-> a = 0) /\
     (snd (notPositive a name) = []
      <-> fst (notPositive a name) = false) /\
     (snd (notStrPositive a name) = []
      <-> fst (notStrPositive a name) = false)).
Proof.
  split; intros a name; unfold notPositive, notStrPositive;
    destruct (ltT_dec a zero) as [Hlt | Hge];
    destruct (leT_dec a zero) as [Hle | Hgt];
    simpl in *; repeat split; intros; try discriminate; try reflexivity;
    try lia; try lra;
    repeat match goal with H : _ /\ _ |- _ => destruct H end;
    try discriminate; try lia; try lra.
Qed.

End CheckFacts.

(* ================================================================= *)
(** ** Runs without noise *)

Section NoiseFree.

Context {BI : BoxesImpl}.

(** Without noise a step keeps two states that differ in their streams
    only in that relation. *)
Lemma noise_free_step_agree (b : Build) (s1 s2 : State) :
  sized s1 -> sized s2 -> agree 0 s1 s2 ->
  stddev_temp s1 = 0 -> stddev_rot s1 = 0 ->
  agree 0 (evolve b s1) (evolve b s2).
Proof.
  intros Hsz1 Hsz2 Hag Hsdt1 Hsdr1.
  destruct (calcInternalForces_agree 0 s1 s2 Hsz1 Hsz2 Hag) as [HF0 HF1].
  destruct Hag as (Hst & Hbx & Hpos & Hp0 & Hp1 & Han & _ & _ & _).
  destruct (static_fields _ _ Hst) as (Hl & Hn & Hk & Ha & Hd & Hsdt & Hsdr).
  destruct (evolve_lengths b s1 Hsz1) as (L0 & L1 & L2 & _).
  destruct (evolve_lengths b s2 Hsz2) as (M0 & M1 & M2 & _).
  destruct (evolve_frame b s1 Hsz1) as (A1 & _ & A3 & A4 & A5 & _).
  destruct (evolve_frame b s2 Hsz2) as (B1 & _ & B3 & B4 & B5 & _).
  cbv zeta in *.
  assert (Hdev1 : dev_theta b s1 = 0) by (destruct b; simpl; assumption).
  assert (Hdev2 : dev_theta b s2 = 0)
    by (destruct b; simpl; congruence).
  assert (Hpt : forall i, (i < n_parts s1)%nat ->
            get (positions0 (evolve b s1)) i = get (positions0 (evolve b s2)) i
            /\ get (positions1 (evolve b s1)) i
               = get (positions1 (evolve b s2)) i
            /\ get (angles (evolve b s1)) i = get (angles (evolve b s2)) i).
  { intros i Hi.
    destruct (evolve_pointwise b s1 i Hsz1 Hi) as (X0 & X1 & X2).
    destruct (evolve_pointwise b s2 i Hsz2) as (Y0 & Y1 & Y2); [lia |].
    destruct (evolve_prewrap_spec b s1 i Hsz1 Hi) as (U0 & U1 & U2).
    destruct (evolve_prewrap_spec b s2 i Hsz2) as (V0 & V1 & V2); [lia |].
    cbv zeta in *.
    rewrite X0, X1, X2, Y0, Y1, Y2, U0, U1, U2, V0, V1, V2.
    rewrite Hdev1, Hdev2, <- Hsdt, Hsdt1, !gaussian_zero_dev.
    rewrite HF0, HF1, Hp0, Hp1, Han, Hl, Ha, Hd.
    repeat split; reflexivity. }
  unfold agree.
  split; [congruence |].
  split; [rewrite !evolve_boxes by assumption; congruence |].
  split; [congruence |].
  split; [apply vec_ext; [congruence |];
          intros i Hi; apply Hpt; rewrite <- L0; exact Hi |].
  split; [apply vec_ext; [congruence |];
          intros i Hi; apply Hpt; rewrite <- L1; exact Hi |].
  split; [apply vec_ext; [congruence |];
          intros i Hi; apply Hpt; rewrite <- L2; exact Hi |].
  split; [congruence |]. split; [congruence |].
  intros j Hj. lia.
Qed.

(** X15. Without noise ([T = 0] and [D_r = 0], both deviations zero) a
    run does not depend on the random engine: from two states that differ
    in their streams only, any number of steps of any build leaves the same
    positions, angles and forces. *)
Theorem noise_free_run_ignores_stream (b : Build) (m : nat)
    (s1 s2 : State) :
  sized s1 -> sized s2 -> agree 0 s1 s2 ->
  stddev_temp s1 = 0 -> stddev_rot s1 = 0 ->
  positions0 (evolve_n b m s1) = positions0 (evolve_n b m s2) /\
  positions1 (evolve_n b m s1) = positions1 (evolve_n b m s2) /\
  angles (evolve_n b m s1) = angles (evolve_n b m s2) /\
  forces0 (evolve_n b m s1) = forces0 (evolve_n b m s2) /\
  forces1 (evolve_n b m s1) = forces1 (evolve_n b m s2).
Proof.
  revert s1 s2. induction m as [| m IH]; intros s1 s2 Hsz1 Hsz2 Hag Ht Hr;
    simpl.
  - destruct Hag as (_ & _ & _ & H0 & H1 & H2 & H3 & H4 & _).
    repeat split; assumption.
  - destruct (evolve_frame b s1 Hsz1) as (F1 & _ & _ & _ & _ & F6).
    destruct (evolve_frame b s2 Hsz2) as (_ & _ & _ & _ & _ & G6).
    cbv zeta in *.
    destruct (static_fields _ _ F1) as (_ & _ & _ & _ & _ & Hsdt & Hsdr).
    apply IH; try assumption; try congruence.
    apply noise_free_step_agree; assumption.
Qed.

End NoiseFree.

(* ================================================================= *)
(** ** The further properties at concrete inputs *)

Module PropertyScenarios.

#[local] Existing Instance Grid.impl.

Lemma evolve_n_bookkeeping_witness :
  sized noise_scenario /\
  (static (evolve_n MklRev1 2 noise_scenario) = static noise_scenario /\
   rng (evolve_n MklRev1 2 noise_scenario) = rng noise_scenario /\
   rng_pos (evolve_n MklRev1 2 noise_scenario)
     = (rng_pos noise_scenario + 3 * n_parts noise_scenario * 2)%nat /\
   sized (evolve_n MklRev1 2 noise_scenario)).
Proof.
  split.
  - exact NoiseScenario.noise_scenario_sized.
  - exact (evolve_n_bookkeeping MklRev1 2 noise_scenario
             NoiseScenario.noise_scenario_sized).
Defined.

Lemma ctor_particles_in_box_witness :
  (0 < 4 /\ (forall j, (j < 3 * 2)%nat -> 0 <= toy_engine 1 j < 1) /\
   (1 < 2)%nat) /\
  let st := State_ctor toy_engine MklRev2 4 2 1 0 0 0 1 1 in
  sized st /\ n_parts st = 2%nat /\
  0 <= get (positions0 st) 1 < 4 /\ 0 <= get (positions1 st) 1 < 4 /\
  0 <= get (angles st) 1 < 2 * PI /\
  get (forces0 st) 1 = 0 /\ get (forces1 st) 1 = 0.
Proof.
  assert (HL : 0 < 4) by lra.
  assert (Hunit : forall j, (j < 3 * 2)%nat -> 0 <= toy_engine 1 j < 1)
    by (intros j _; unfold toy_engine; simpl; lra).
  assert (Hi : (1 < 2)%nat) by lia.
  split.
  - split; [exact HL | split; [exact Hunit | exact Hi]].
  - exact (ctor_particles_in_box toy_engine MklRev2 4 2 1 0 0 0 1 1 1%nat
             HL Hunit Hi).
Defined.

Lemma pair_scenario_sized (k _dt x0 x1 : R) : sized (pair_scenario k _dt x0 x1).
Proof. apply placed_sized; reflexivity. Qed.

Lemma pair_scenario_parts (k _dt x0 x1 : R) :
  Forall (Forall (fun i => (i < n_parts (pair_scenario k _dt x0 x1))%nat))
         (getPartsOfBox
            (update (boxes (pair_scenario k _dt x0 x1))
                    (positions0 (pair_scenario k _dt x0 x1))
                    (positions1 (pair_scenario k _dt x0 x1)))).
Proof.
  exact (GridFacts.rebuild_in_range (Grid.ctor 4 2) [x0; x1] [/ 2; / 2]).
Qed.

Lemma forces_do_not_carry_over_witness :
  let st := pair_scenario 1 1 (/ 4) (3 / 4) in
  (sized st /\ length [1; 2] = n_parts st /\ length [3; 4] = n_parts st) /\
  (forces0 (calcInternalForces (wr Forces1 [3; 4] (wr Forces0 [1; 2] st)))
     = forces0 (calcInternalForces st) /\
   forces1 (calcInternalForces (wr Forces1 [3; 4] (wr Forces0 [1; 2] st)))
     = forces1 (calcInternalForces st)).
Proof.
  cbv zeta.
  assert (Hsz := pair_scenario_sized 1 1 (/ 4) (3 / 4)).
  assert (H0 : length [1; 2] = n_parts (pair_scenario 1 1 (/ 4) (3 / 4)))
    by reflexivity.
  assert (H1 : length [3; 4] = n_parts (pair_scenario 1 1 (/ 4) (3 / 4)))
    by reflexivity.
  split.
  - split; [exact Hsz | split; [exact H0 | exact H1]].
  - exact (forces_do_not_carry_over _ [1; 2] [3; 4] Hsz H0 H1).
Defined.

Lemma far_scenario_apart (i j : nat) :
  (i < n_parts far_scenario)%nat -> (j < n_parts far_scenario)%nat ->
  ~ 0 < pair_dr2 far_scenario i j < 1.
Proof.
  intros Hi Hj. simpl in Hi, Hj.
  unfold pair_dr2, pair_dx, pair_dy, far_scenario, placed, get.
  destruct i as [| [| i]]; [| | lia]; destruct j as [| [| j]]; try lia;
    simpl.
  - rewrite !Rminus_diag, !pbcSym_zero. lra.
  - rewrite Rminus_diag, pbcSym_zero, pbcSym_small by lra. lra.
  - rewrite Rminus_diag, pbcSym_zero, pbcSym_small by lra. lra.
  - rewrite !Rminus_diag, !pbcSym_zero. lra.
Qed.

Lemma no_force_beyond_cutoff_witness :
  (sized far_scenario /\
   Forall (Forall (fun i => (i < n_parts far_scenario)%nat))
          (getPartsOfBox
             (update (boxes far_scenario) (positions0 far_scenario)
                     (positions1 far_scenario))) /\
   (forall i j, (i < n_parts far_scenario)%nat ->
                (j < n_parts far_scenario)%nat ->
                ~ 0 < pair_dr2 far_scenario i j < 1)) /\
  (forces0 (calcInternalForces far_scenario)
     = repeat 0 (n_parts far_scenario) /\
   forces1 (calcInternalForces far_scenario)
     = repeat 0 (n_parts far_scenario)).
Proof.
  assert (Hsz : sized far_scenario) by (apply placed_sized; reflexivity).
  assert (Hparts :
            Forall (Forall (fun i => (i < n_parts far_scenario)%nat))
              (getPartsOfBox
                 (update (boxes far_scenario) (positions0 far_scenario)
                         (positions1 far_scenario))))
    by exact (GridFacts.rebuild_in_range (Grid.ctor 4 2) [/ 2; 2] [/ 2; / 2]).
  split.
  - split; [exact Hsz | split; [exact Hparts | exact far_scenario_apart]].
  - exact (no_force_beyond_cutoff far_scenario Hsz Hparts far_scenario_apart).
Defined.

Lemma free_particles_move_alone_witness :
  let st := free_pair in
  (sized st /\ pot_strength st = 0 /\ (0 < n_parts st)%nat) /\
  (get (positions0 (evolve_prewrap Scalar st)) 0 =
     get (positions0 st) 0 + dt st * (activity st * cos (get (angles st) 0))
     + gaussian 0 (stddev_temp st)
         (variate st (draw_x Scalar (n_parts st) 0)) /\
   get (positions1 (evolve_prewrap Scalar st)) 0 =
     get (positions1 st) 0 + dt st * (activity st * sin (get (angles st) 0))
     + gaussian 0 (stddev_temp st)
         (variate st (draw_y Scalar (n_parts st) 0))) /\
  (n_parts st = 2%nat /\ activity st = 1 /\ 0 < pair_dr2 st 0 1 < 1).
Proof.
  cbv zeta.
  assert (Hsz : sized free_pair) by (apply placed_sized; reflexivity).
  assert (Hk : pot_strength free_pair = 0) by reflexivity.
  assert (Hn : (0 < n_parts free_pair)%nat) by (simpl; lia).
  split; [| split].
  - split; [exact Hsz | split; [exact Hk | exact Hn]].
  - exact (free_particles_move_alone Scalar free_pair 0%nat Hsz Hk Hn).
  - split; [reflexivity | split; [reflexivity |]].
    unfold pair_dr2, pair_dx, pair_dy, free_pair, placed, get. simpl.
    rewrite Rminus_diag, pbcSym_zero, pbcSym_small by lra. lra.
Defined.

Lemma pair_scenario_quiet (k _dt x0 x1 : R) :
  activity (pair_scenario k _dt x0 x1) = 0 /\
  stddev_temp (pair_scenario k _dt x0 x1) = 0 /\
  stddev_rot (pair_scenario k _dt x0 x1) = 0.
Proof.
  split; [reflexivity |].
  split; apply sqrt_zero_temperature.
Qed.

Lemma centroid_conserved_witness :
  let st := pair_scenario 1 1 (/ 4) (3 / 4) in
  (sized st /\
   Forall (Forall (fun i => (i < n_parts st)%nat))
          (getPartsOfBox
             (update (boxes st) (positions0 st) (positions1 st))) /\
   activity st = 0 /\ stddev_temp st = 0) /\
  (vsum (positions0 (evolve_prewrap MklRev2 st)) = vsum (positions0 st) /\
   vsum (positions1 (evolve_prewrap MklRev2 st)) = vsum (positions1 st)).
Proof.
  cbv zeta.
  assert (Hsz := pair_scenario_sized 1 1 (/ 4) (3 / 4)).
  assert (Hparts := pair_scenario_parts 1 1 (/ 4) (3 / 4)).
  destruct (pair_scenario_quiet 1 1 (/ 4) (3 / 4)) as (Ha & Hsd & _).
  split.
  - split; [exact Hsz | split; [exact Hparts | split; [exact Ha | exact Hsd]]].
  - exact (centroid_conserved MklRev2 _ Hsz Hparts Ha Hsd).
Defined.

Lemma stored_forces_after_step_witness :
  let st := pair_scenario 1 1 (/ 4) (3 / 4) in
  (sized st /\
   Forall (Forall (fun i => (i < n_parts st)%nat))
          (getPartsOfBox
             (update (boxes st) (positions0 st) (positions1 st)))) /\
  (forces0 (evolve Scalar st) = forces0 (calcInternalForces st) /\
   forces1 (evolve Scalar st) = forces1 (calcInternalForces st) /\
   vsum (forces0 (evolve Scalar st)) = 0 /\
   vsum (forces1 (evolve Scalar st)) = 0).
Proof.
  cbv zeta.
  assert (Hsz := pair_scenario_sized 1 1 (/ 4) (3 / 4)).
  assert (Hparts := pair_scenario_parts 1 1 (/ 4) (3 / 4)).
  split.
  - split; [exact Hsz | exact Hparts].
  - exact (stored_forces_after_step Scalar _ Hsz Hparts).
Defined.

Lemma euler_maruyama_fresh_noise_witness :
  let st := noise_scenario in
  let n := n_parts st in
  let st' := evolve_prewrap Scalar st in
  (Scalar <> MklRev1 /\ sized st /\ (0 < n_parts st)%nat) /\
  ((get (positions0 st') 0 =
      get (positions0 st) 0
      + dt st * (get (forces0 (calcInternalForces st)) 0
                 + activity st * cos (get (angles st) 0))
      + gaussian 0 (stddev_temp st) (variate st (draw_x Scalar n 0)) /\
    get (positions1 st') 0 =
      get (positions1 st) 0
      + dt st * (get (forces1 (calcInternalForces st)) 0
                 + activity st * sin (get (angles st) 0))
      + gaussian 0 (stddev_temp st) (variate st (draw_y Scalar n 0)) /\
    get (angles st') 0 =
      get (angles st) 0
      + gaussian 0 (stddev_rot st) (variate st (draw_theta Scalar n 0))) /\
   (draw_x Scalar n 0 <> draw_y Scalar n 0 /\
    draw_x Scalar n 0 <> draw_theta Scalar n 0 /\
    draw_y Scalar n 0 <> draw_theta Scalar n 0 /\
    (draw_x Scalar n 0 < 3 * n)%nat /\ (draw_y Scalar n 0 < 3 * n)%nat /\
    (draw_theta Scalar n 0 < 3 * n)%nat)).
Proof.
  cbv zeta.
  assert (Hb : Scalar <> MklRev1) by discriminate.
  assert (Hn : (0 < n_parts noise_scenario)%nat) by (simpl; lia).
  split.
  - split; [exact Hb | split; [exact NoiseScenario.noise_scenario_sized |
                               exact Hn]].
  - exact (euler_maruyama_fresh_noise Scalar noise_scenario 0%nat Hb
             NoiseScenario.noise_scenario_sized Hn).
Defined.

Lemma noisy_pair_sized (stream : nat -> R) : sized (noisy_pair stream).
Proof. apply placed_sized; reflexivity. Qed.

Lemma scalar_mkl2_same_up_to_draw_order_witness :
  let s1 := noisy_pair counting_stream in
  let s2 := noisy_pair mkl_order_stream in
  (sized s1 /\ sized s2 /\ agree 0 s1 s2 /\
   (forall i, (i < n_parts s1)%nat ->
      variate s1 (3 * i) = variate s2 i /\
      variate s1 (3 * i + 1) = variate s2 (n_parts s1 + i) /\
      variate s1 (3 * i + 2) = variate s2 (n_parts s1 + n_parts s1 + i))) /\
  (positions0 (evolve Scalar s1) = positions0 (evolve MklRev2 s2) /\
   positions1 (evolve Scalar s1) = positions1 (evolve MklRev2 s2) /\
   angles (evolve Scalar s1) = angles (evolve MklRev2 s2) /\
   forces0 (evolve Scalar s1) = forces0 (evolve MklRev2 s2) /\
   forces1 (evolve Scalar s1) = forces1 (evolve MklRev2 s2)).
Proof.
  cbv zeta.
  assert (H1 := noisy_pair_sized counting_stream).
  assert (H2 := noisy_pair_sized mkl_order_stream).
  assert (Hag : agree 0 (noisy_pair counting_stream)
                        (noisy_pair mkl_order_stream)).
  { unfold agree. repeat split; try reflexivity. intros j Hj. lia. }
  assert (Hdraw : forall i, (i < n_parts (noisy_pair counting_stream))%nat ->
            variate (noisy_pair counting_stream) (3 * i)
              = variate (noisy_pair mkl_order_stream) i /\
            variate (noisy_pair counting_stream) (3 * i + 1)
              = variate (noisy_pair mkl_order_stream)
                  (n_parts (noisy_pair counting_stream) + i) /\
            variate (noisy_pair counting_stream) (3 * i + 2)
              = variate (noisy_pair mkl_order_stream)
                  (n_parts (noisy_pair counting_stream)
                   + n_parts (noisy_pair counting_stream) + i)).
  { intros i Hi. simpl in Hi.
    destruct i as [| [| i]]; [| | lia]; repeat split; reflexivity. }
  split.
  - split; [exact H1 | split; [exact H2 | split; [exact Hag | exact Hdraw]]].
  - exact (scalar_mkl2_same_up_to_draw_order _ _ H1 H2 Hag Hdraw).
Defined.

Lemma mkl_revisions_move_alike_witness :
  let st := noisy_pair counting_stream in
  sized st /\
  (positions0 (evolve MklRev1 st) = positions0 (evolve MklRev2 st) /\
   positions1 (evolve MklRev1 st) = positions1 (evolve MklRev2 st) /\
   forces0 (evolve MklRev1 st) = forces0 (evolve MklRev2 st) /\
   forces1 (evolve MklRev1 st) = forces1 (evolve MklRev2 st)).
Proof.
  cbv zeta. split.
  - exact (noisy_pair_sized counting_stream).
  - exact (mkl_revisions_move_alike _ (noisy_pair_sized counting_stream)).
Defined.

Lemma orientation_fixed_without_rotational_noise_witness :
  let st := pair_scenario 1 1 (/ 4) (3 / 4) in
  (Scalar <> MklRev1 /\ sized st /\ stddev_rot st = 0 /\
   (forall i, (i < n_parts st)%nat -> 0 <= get (angles st) i < 2 * PI)) /\
  angles (evolve Scalar st) = angles st.
Proof.
  cbv zeta.
  assert (Hb : Scalar <> MklRev1) by discriminate.
  assert (Hsz := pair_scenario_sized 1 1 (/ 4) (3 / 4)).
  destruct (pair_scenario_quiet 1 1 (/ 4) (3 / 4)) as (_ & _ & Hsd).
  assert (Hrange : forall i,
            (i < n_parts (pair_scenario 1 1 (/ 4) (3 / 4)))%nat ->
            0 <= get (angles (pair_scenario 1 1 (/ 4) (3 / 4))) i < 2 * PI).
  { intros i Hi. simpl in Hi. pose proof PI_RGT_0.
    destruct i as [| [| i]]; [| | lia]; unfold get; simpl; lra. }
  split.
  - split; [exact Hb | split; [exact Hsz | split; [exact Hsd | exact Hrange]]].
  - exact (orientation_fixed_without_rotational_noise Scalar _ Hb Hsz Hsd
             Hrange).
Defined.

Lemma single_particle_rests_witness :
  let st := lone_scenario in
  let Inv := fun g : Grid.t => Grid.g_n_parts g = 1%nat in
  (sized st /\ n_parts st = 1%nat /\
   activity st = 0 /\ stddev_temp st = 0 /\ stddev_rot st = 0 /\
   0 <= get (positions0 st) 0 < len st /\
   0 <= get (positions1 st) 0 < len st /\
   0 <= get (angles st) 0 < 2 * PI /\
   Inv (boxes st) /\
   (forall bx p0 p1, Inv bx ->
      Inv (update bx p0 p1) /\
      Forall (Forall (fun i => (i < 1)%nat))
             (getPartsOfBox (update bx p0 p1)))) /\
  (positions0 (evolve_n MklRev1 3 st) = positions0 st /\
   positions1 (evolve_n MklRev1 3 st) = positions1 st /\
   angles (evolve_n MklRev1 3 st) = angles st).
Proof.
  cbv zeta.
  assert (Hsz : sized lone_scenario) by (apply placed_sized; reflexivity).
  assert (Hn : n_parts lone_scenario = 1%nat) by reflexivity.
  assert (Ha : activity lone_scenario = 0) by reflexivity.
  assert (Hsdt : stddev_temp lone_scenario = 0)
    by apply sqrt_zero_temperature.
  assert (Hsdr : stddev_rot lone_scenario = 0)
    by apply sqrt_zero_temperature.
  assert (Hx : 0 <= get (positions0 lone_scenario) 0 < len lone_scenario)
    by (unfold get; simpl; lra).
  assert (Hy : 0 <= get (positions1 lone_scenario) 0 < len lone_scenario)
    by (unfold get; simpl; lra).
  assert (Ht : 0 <= get (angles lone_scenario) 0 < 2 * PI)
    by (unfold get; simpl; pose proof PI2_1; lra).
  assert (Hinv : Grid.g_n_parts (boxes lone_scenario) = 1%nat) by reflexivity.
  assert (Hupd : forall (bx : Grid.t) (p0 p1 : vec),
            Grid.g_n_parts bx = 1%nat ->
            Grid.g_n_parts (update bx p0 p1) = 1%nat /\
            Forall (Forall (fun i => (i < 1)%nat))
                   (getPartsOfBox (update bx p0 p1))).
  { intros bx p0 p1 Hbx. split; [exact Hbx |].
    pose proof (GridFacts.rebuild_in_range bx p0 p1) as Hr.
    rewrite Hbx in Hr. exact Hr. }
  split.
  - split; [exact Hsz |]. split; [exact Hn |]. split; [exact Ha |].
    split; [exact Hsdt |]. split; [exact Hsdr |]. split; [exact Hx |].
    split; [exact Hy |]. split; [exact Ht |]. split; [exact Hinv |].
    exact Hupd.
  - exact (single_particle_rests (BI := Grid.impl)
             (fun g : Grid.t => Grid.g_n_parts g = 1%nat)
             MklRev1 3 lone_scenario Hsz Hn Ha Hsdt Hsdr Hx Hy Ht Hinv Hupd).
Defined.

Lemma noise_free_run_ignores_stream_witness :
  let s1 := pair_scenario 1 1 (/ 4) (3 / 4) in
  let s2 : State (BI := Grid.impl) :=
    placed 4 1 0 0 0 1 mkl_order_stream [/ 4; 3 / 4] [/ 2; / 2] [0; 0] in
  (sized s1 /\ sized s2 /\ agree 0 s1 s2 /\
   stddev_temp s1 = 0 /\ stddev_rot s1 = 0) /\
  (positions0 (evolve_n Scalar 2 s1) = positions0 (evolve_n Scalar 2 s2) /\
   positions1 (evolve_n Scalar 2 s1) = positions1 (evolve_n Scalar 2 s2) /\
   angles (evolve_n Scalar 2 s1) = angles (evolve_n Scalar 2 s2) /\
   forces0 (evolve_n Scalar 2 s1) = forces0 (evolve_n Scalar 2 s2) /\
   forces1 (evolve_n Scalar 2 s1) = forces1 (evolve_n Scalar 2 s2)).
Proof.
  cbv zeta.
  assert (H1 := pair_scenario_sized 1 1 (/ 4) (3 / 4)).
  assert (H2 : sized (BI := Grid.impl)
                 (placed 4 1 0 0 0 1 mkl_order_stream [/ 4; 3 / 4]
                         [/ 2; / 2] [0; 0]))
    by (apply placed_sized; reflexivity).
  assert (Hag : agree 0 (pair_scenario 1 1 (/ 4) (3 / 4))
                  (placed 4 1 0 0 0 1 mkl_order_stream [/ 4; 3 / 4]
                          [/ 2; / 2] [0; 0])).
  { unfold agree. repeat split; try reflexivity. intros j Hj. lia. }
  destruct (pair_scenario_quiet 1 1 (/ 4) (3 / 4)) as (_ & Ht & Hr).
  split.
  - split; [exact H1 | split; [exact H2 | split; [exact Hag |
              split; [exact Ht | exact Hr]]]].
  - exact (noise_free_run_ignores_stream Scalar 2 _ _ H1 H2 Hag Ht Hr).
Defined.

Lemma same_cell_pair_visits_even_witness :
  (forall b, occ 0 (nth b [[0; 1]]%nat []) = occ 1 (nth b [[0; 1]]%nat [])) /\
  (visit_count 0 1 (pairs_visited 1 [[0]]%nat [[0; 1]]%nat)
   + visit_count 1 0 (pairs_visited 1 [[0]]%nat [[0; 1]]%nat))%nat =
  (2 * visit_count 0 1 (pairs_visited 1 [[0]]%nat [[0; 1]]%nat))%nat.
Proof.
  assert (Hsame : forall b, occ 0 (nth b [[0; 1]]%nat [])
                            = occ 1 (nth b [[0; 1]]%nat []))
    by (intros [| [| b]]; reflexivity).
  split.
  - exact Hsame.
  - exact (same_cell_pair_visits_even 1 [[0]]%nat [[0; 1]]%nat 0 1 Hsame).
Defined.

End PropertyScenarios.

(* ================================================================= *)
(** ** The repulsion of two particles *)

Section Repulsion.

Context {BI : BoxesImpl}.

(** Two particles at the same height whose minimum-image displacement
    along x is [d = 1/2] or [d = -1/2], visited [c] times: the force on
    each is [c] times the pair force [k * d]. *)
Lemma min_image_pair_forces (L k T Dr v0 _dt x0 x1 y t0 t1 : R)
    (stream : nat -> R) (l : list (nat * nat)) :
  let st := placed L k T Dr v0 _dt stream [x0; x1] [y; y] [t0; t1] in
  let bx := update (boxes st) [x0; x1] [y; y] in
  let visits :=
    pairs_visited (getNBoxes bx) (getNbrsPos bx) (getPartsOfBox bx) in
  let d := pair_dx st 0 1 in
  1 < L -> d = / 2 \/ d = - / 2 ->
  filter offdiag visits = l ->
  l = [(0, 1)]%nat \/ l = [(1, 0)]%nat \/ l = [(0, 1); (1, 0)]%nat ->
  let c := INR (length l) in
  forces0 (calcInternalForces st) = [c * (k * d); - (c * (k * d))] /\
  forces1 (calcInternalForces st) = [0; 0].
Proof.
  intros st bx visits d HL Hd Hvis Hl c.
  assert (Hsz : sized st) by (apply placed_sized; reflexivity).
  assert (Hdx10 : pair_dx st 1 0 = - d).
  { subst d. unfold pair_dx in *. simpl in *. unfold get in *. simpl in *.
    replace (x1 - x0) with (- (x0 - x1)) by ring.
    apply pbcSym_opp; [lra |]. destruct Hd as [-> | ->]; lra. }
  assert (Hdy : forall i j, (i < 2)%nat -> (j < 2)%nat -> pair_dy st i j = 0).
  { intros i j Hi Hj. unfold pair_dy. simpl.
    destruct i as [| [| i]]; destruct j as [| [| j]]; try lia;
      unfold get; simpl; rewrite Rminus_diag; apply pbcSym_zero. }
  assert (Hq01 : pair_dr2 st 0 1 = / 4).
  { unfold pair_dr2. fold d. rewrite Hdy by lia.
    destruct Hd as [-> | ->]; lra. }
  assert (Hq10 : pair_dr2 st 1 0 = / 4).
  { unfold pair_dr2. rewrite Hdx10, Hdy by lia.
    destruct Hd as [-> | ->]; lra. }
  pose proof (pair_force_quarter st 0 1 Hq01) as Hf01.
  pose proof (pair_force_quarter st 1 0 Hq10) as Hf10.
  fold d in Hf01. rewrite Hdy in Hf01 by lia.
  rewrite Hdx10, Hdy in Hf10 by lia.
  destruct (calcInternalForces_offdiag st Hsz) as [HF0 HF1].
  cbv zeta in HF0, HF1.
  change (positions0 st) with [x0; x1] in HF0, HF1.
  change (positions1 st) with [y; y] in HF0, HF1.
  fold bx in HF0, HF1. fold visits in HF0, HF1.
  rewrite Hvis in HF0, HF1.
  rewrite HF0, HF1. subst c.
  destruct Hl as [-> | [-> | ->]]; simpl fold_left;
    unfold apply_pair; simpl fst; simpl snd;
    rewrite ?Hf01, ?Hf10; simpl;
    split; repeat (f_equal; try lra).
Qed.

(** C8, as amended. With [T = 0], [D_r = 0], [v0 = 0], [k > 0], [dt > 0]
    and exactly two particles at the same height whose minimum-image
    displacement along x has length 1/2 ([dr2 = 1/4]), in a box wide enough
    for the step ([1/2 + dt*k < L/2]) and with the pair evaluated once:
    before the wrap each particle has moved by [dt * k / 2] along x, the two
    in opposite directions, and none along y; after [evolve] their
    minimum-image separation is [1/2 + dt*k], more than the 1/2 before. *)
Theorem repulsion_once (b : Build) (L k _dt x0 x1 y t0 t1 : R)
    (stream : nat -> R) :
  let st := placed L k 0 0 0 _dt stream [x0; x1] [y; y] [t0; t1] in
  let bx := update (boxes st) [x0; x1] [y; y] in
  let visits :=
    pairs_visited (getNBoxes bx) (getNbrsPos bx) (getPartsOfBox bx) in
  0 < k -> 0 < _dt -> / 2 + _dt * k < L / 2 ->
  pair_dx st 0 1 = / 2 \/ pair_dx st 0 1 = - / 2 ->
  filter offdiag visits = [(0, 1)]%nat \/
  filter offdiag visits = [(1, 0)]%nat ->
  let st' := evolve_prewrap b st in
  (pair_dr2 st 0 1 = / 4 /\ sqrt (pair_dr2 st 0 1) = / 2) /\
  (Rabs (get (positions0 st') 0 - x0) = _dt * k / 2 /\
   get (positions0 st') 1 - x1 = - (get (positions0 st') 0 - x0) /\
   get (positions1 st') 0 = y /\ get (positions1 st') 1 = y) /\
  (sqrt (pair_dr2 (evolve b st) 0 1) = / 2 + _dt * k /\
   sqrt (pair_dr2 st 0 1) < sqrt (pair_dr2 (evolve b st) 0 1)).
Proof.
  intros st bx visits Hk Hdt Hwide Hd Hvis st'.
  assert (Hp : 0 < _dt * k) by nra.
  assert (HL : 1 < L) by lra.
  assert (Hsz : sized st) by (apply placed_sized; reflexivity).
  set (d := pair_dx st 0 1) in *.
  assert (Hforces :
            forces0 (calcInternalForces st) = [1 * (k * d); - (1 * (k * d))] /\
            forces1 (calcInternalForces st) = [0; 0]).
  { destruct Hvis as [Hv | Hv].
    - apply (min_image_pair_forces L k 0 0 0 _dt x0 x1 y t0 t1 stream
               [(0, 1)]%nat); auto.
    - apply (min_image_pair_forces L k 0 0 0 _dt x0 x1 y t0 t1 stream
               [(1, 0)]%nat); auto. }
  destruct Hforces as [HA HB].
  assert (Hsd : stddev_temp st = 0) by apply sqrt_zero_temperature.
  assert (H0 : (0 < n_parts st)%nat) by (simpl; lia).
  assert (H1 : (1 < n_parts st)%nat) by (simpl; lia).
  destruct (evolve_prewrap_spec b st 0 Hsz H0) as (X0 & Y0 & _).
  destruct (evolve_prewrap_spec b st 1 Hsz H1) as (X1 & Y1 & _).
  cbv zeta in X0, Y0, X1, Y1. fold st' in X0, Y0, X1, Y1.
  rewrite HA, Hsd, gaussian_zero_dev in X0, X1.
  rewrite HB, Hsd, gaussian_zero_dev in Y0, Y1.
  unfold get in X0, X1, Y0, Y1. simpl in X0, X1, Y0, Y1. fold (get (positions0 st') 0) in X0.
  fold (get (positions0 st') 1) in X1. fold (get (positions1 st') 0) in Y0.
  fold (get (positions1 st') 1) in Y1.
  assert (E0 : get (positions0 st') 0 = x0 + _dt * k * d) by (rewrite X0; ring).
  assert (E1 : get (positions0 st') 1 = x1 - _dt * k * d) by (rewrite X1; ring).
  assert (E2 : get (positions1 st') 0 = y) by (rewrite Y0; ring).
  assert (E3 : get (positions1 st') 1 = y) by (rewrite Y1; ring).
  assert (Hdy : pair_dy st 0 1 = 0).
  { unfold pair_dy, get. simpl. rewrite Rminus_diag. apply pbcSym_zero. }
  assert (Hq : pair_dr2 st 0 1 = / 4).
  { unfold pair_dr2. fold d. rewrite Hdy. destruct Hd as [-> | ->]; lra. }
  assert (Hbefore : sqrt (pair_dr2 st 0 1) = / 2).
  { rewrite Hq. apply sqrt_lem_1; lra. }
  (* the separation after the step *)
  destruct (evolve_frame b st Hsz) as (F1 & _). cbv zeta in F1.
  destruct (static_fields _ _ F1) as (Hl & _).
  destruct (evolve_pointwise b st 0 Hsz H0) as (W0 & V0 & _).
  destruct (evolve_pointwise b st 1 Hsz H1) as (W1 & V1 & _).
  fold st' in W0, V0, W1, V1.
  change (len st) with L in *.
  assert (Hraw : x0 - x1 = d + L * IZR (Int_part ((x0 - x1) / L + / 2))).
  { subst d. unfold pair_dx, pbcSym, get. simpl. ring. }
  assert (HdxA : pair_dx (evolve b st) 0 1 = d + 2 * (_dt * k) * d).
  { unfold pair_dx. rewrite Hl, W0, W1, E0, E1.
    rewrite pbcSym_of_wrapped by lra.
    replace (x0 + _dt * k * d - (x1 - _dt * k * d))
      with (d + 2 * (_dt * k) * d
            + L * IZR (Int_part ((x0 - x1) / L + / 2)))
      by (clear - Hraw; lra).
    rewrite pbcSym_shift by lra.
    apply pbcSym_small. destruct Hd as [Hd | Hd]; rewrite Hd; lra. }
  assert (HdyA : pair_dy (evolve b st) 0 1 = 0).
  { unfold pair_dy. rewrite Hl, V0, V1, E2, E3, Rminus_diag.
    apply pbcSym_zero. }
  assert (Hafter : sqrt (pair_dr2 (evolve b st) 0 1) = / 2 + _dt * k).
  { unfold pair_dr2. rewrite HdxA, HdyA.
    apply sqrt_lem_1; [nra | lra |].
    destruct Hd as [Hd | Hd]; rewrite Hd; field. }
  split; [split; assumption |].
  split.
  - rewrite E0, E1, E2, E3.
    replace (x0 + _dt * k * d - x0) with (_dt * k * d) by ring.
    replace (x1 - _dt * k * d - x1) with (- (_dt * k * d)) by ring.
    split; [| repeat split; reflexivity].
    destruct Hd as [Hd | Hd]; rewrite Hd.
    + rewrite Rabs_pos_eq; lra.
    + replace (_dt * k * - / 2) with (- (_dt * k / 2)) by lra.
      rewrite Rabs_Ropp, Rabs_pos_eq; lra.
  - split; [exact Hafter |]. rewrite Hafter, Hbefore. lra.
Qed.

End Repulsion.

Module RepulsionScenario.

#[local] Existing Instance Grid.impl.

(** Particles in the first and in the last cell of the bottom row: the
    pair is visited once, from the last cell. *)
Lemma visits_across_boundary :
  let bx := Grid.rebuild (Grid.ctor 4 2) [/ 4; 15 / 4] [/ 2; / 2] in
  filter offdiag
    (pairs_visited (Grid.n_cells bx) (Grid.nbrs_pos bx) (Grid.g_parts bx)) =
  [(1, 0)]%nat.
Proof.
  cbv zeta.
  rewrite (ScenarioFacts.visits_of_cells (/ 4) (15 / 4) 0 3) by (simpl; lra).
  vm_compute. reflexivity.
Qed.

Lemma across_boundary_dx :
  pair_dx (pair_scenario 1 1 (/ 4) (15 / 4)) 0 1 = / 2.
Proof.
  unfold pair_dx, pair_scenario, placed, get. simpl. unfold pbcSym.
  rewrite (floor_unique _ (-1)); lra.
Qed.

(** C8 at a concrete input: in the box of side 4 over the grid cell list,
    with [k = 1] and [dt = 1], the particles at x = 1/4 and x = 15/4, which
    interact across the periodic boundary. *)
Lemma repulsion_once_witness :
  let st := pair_scenario 1 1 (/ 4) (15 / 4) in
  let st' := evolve_prewrap Scalar st in
  (0 < 1 /\ 0 < 1 /\ / 2 + 1 * 1 < 4 / 2 /\
   (pair_dx st 0 1 = / 2 \/ pair_dx st 0 1 = - / 2)) /\
  ((pair_dr2 st 0 1 = / 4 /\ sqrt (pair_dr2 st 0 1) = / 2) /\
   (Rabs (get (positions0 st') 0 - / 4) = 1 * 1 / 2 /\
    get (positions0 st') 1 - 15 / 4 = - (get (positions0 st') 0 - / 4) /\
    get (positions1 st') 0 = / 2 /\ get (positions1 st') 1 = / 2) /\
   (sqrt (pair_dr2 (evolve Scalar st) 0 1) = / 2 + 1 * 1 /\
    sqrt (pair_dr2 st 0 1) < sqrt (pair_dr2 (evolve Scalar st) 0 1))).
Proof.
  cbv zeta.
  assert (Hk : 0 < 1) by lra.
  assert (Hwide : / 2 + 1 * 1 < 4 / 2) by lra.
  assert (Hd : pair_dx (pair_scenario 1 1 (/ 4) (15 / 4)) 0 1 = / 2 \/
               pair_dx (pair_scenario 1 1 (/ 4) (15 / 4)) 0 1 = - / 2)
    by (left; exact across_boundary_dx).
  split.
  - split; [exact Hk | split; [exact Hk | split; [exact Hwide | exact Hd]]].
  - exact (repulsion_once (BI := Grid.impl) Scalar 4 1 1 (/ 4) (15 / 4)
             (/ 2) 0 0 counting_stream Hk Hk Hwide Hd
             (or_intror visits_across_boundary)).
Defined.

(** The stored x coordinates after a step of the two particles at
    x = 3/4 and x = 5/4 (adjacent cells, the pair evaluated once). *)
Lemma adjacent_pair_after (k _dt : R) :
  get (positions0 (evolve Scalar (pair_scenario k _dt (3 / 4) (5 / 4)))) 0
    = pbc (3 / 4 - _dt * k / 2) 4 /\
  get (positions0 (evolve Scalar (pair_scenario k _dt (3 / 4) (5 / 4)))) 1
    = pbc (5 / 4 + _dt * k / 2) 4.
Proof.
  assert (Hsz : sized (pair_scenario k _dt (3 / 4) (5 / 4)))
    by (apply placed_sized; reflexivity).
  destruct (two_particles_step (BI := Grid.impl) Scalar 4 k _dt (3 / 4)
              (5 / 4) (/ 2) 0 0 counting_stream [(0, 1)]%nat)
    as (E0 & E1 & _); try lra; auto;
    [exact ScenarioFacts.visits_adjacent_cells |].
  destruct (evolve_pointwise Scalar _ 0%nat Hsz) as (W0 & _);
    [simpl; lia |].
  destruct (evolve_pointwise Scalar _ 1%nat Hsz) as (W1 & _);
    [simpl; lia |].
  unfold pair_scenario in *. rewrite W0, W1, E0, E1. simpl.
  split; f_equal; lra.
Qed.

(** C8 as stated fails, in three ways. With [k = 1] and [dt = 1] the
    first of the particles at x = 3/4 and x = 5/4 is at x = 1/4 before the
    wrap: it has moved by 1/2, not by [dt * k = 1]. With [k = 1] and
    [dt = 7/2] both particles are stored at x = 3 after the step: their
    separation has not grown. With [k = 0] both stay where they were. *)
Lemma repulsion_claim_fails :
  (get (positions0
          (evolve_prewrap Scalar (pair_scenario 1 1 (3 / 4) (5 / 4)))) 0
     = / 4 /\
   Rabs (/ 4 - 3 / 4) = / 2 /\ / 2 <> 1 * 1) /\
  (get (positions0 (evolve Scalar (pair_scenario 1 (7 / 2) (3 / 4) (5 / 4))))
       0 = 3 /\
   get (positions0 (evolve Scalar (pair_scenario 1 (7 / 2) (3 / 4) (5 / 4))))
       1 = 3) /\
  (get (positions0 (evolve Scalar (pair_scenario 0 1 (3 / 4) (5 / 4)))) 0
     = 3 / 4 /\
   get (positions0 (evolve Scalar (pair_scenario 0 1 (3 / 4) (5 / 4)))) 1
     = 5 / 4).
Proof.
  split; [| split].
  - destruct (two_particles_step (BI := Grid.impl) Scalar 4 1 1 (3 / 4)
                (5 / 4) (/ 2) 0 0 counting_stream [(0, 1)]%nat) as (E0 & _);
      try lra; auto; [exact ScenarioFacts.visits_adjacent_cells |].
    split; [| split].
    + unfold pair_scenario. rewrite E0. simpl. lra.
    + replace (/ 4 - 3 / 4) with (- / 2) by lra.
      rewrite Rabs_Ropp, Rabs_pos_eq; lra.
    + lra.
  - destruct (adjacent_pair_after 1 (7 / 2)) as [A0 A1].
    rewrite A0, A1. unfold pbc. split.
    + rewrite (floor_unique _ (-1)); lra.
    + rewrite (floor_unique _ 0); lra.
  - destruct (adjacent_pair_after 0 1) as [A0 A1].
    rewrite A0, A1. unfold pbc. split.
    + rewrite (floor_unique _ 0); lra.
    + rewrite (floor_unique _ 0); lra.
Qed.

End RepulsionScenario.

Module WrapScenario.

#[local] Existing Instance Grid.impl.

Lemma wrap_scenario_sized : sized wrap_scenario.
Proof. apply placed_sized; reflexivity. Qed.

Lemma wrap_scenario_deviations :
  stddev_temp wrap_scenario = 1 /\ stddev_rot wrap_scenario = 3.
Proof.
  unfold wrap_scenario, placed. simpl. split.
  - replace (2 * / 2 * 1) with 1 by lra. apply sqrt_1.
  - apply sqrt_lem_1; lra.
Qed.

(** Before the wrap the particle is at x = 9/2, outside the box of side 4,
    and its angle is 10, beyond [2*pi]. *)
Lemma wrap_scenario_prewrap :
  nth_error (positions0 (evolve_prewrap Scalar wrap_scenario)) 0 = Some (9 / 2)
  /\ nth_error (angles (evolve_prewrap Scalar wrap_scenario)) 0 = Some 10.
Proof.
  destruct (evolve_prewrap_frame Scalar wrap_scenario wrap_scenario_sized)
    as (P1 & _ & _ & _ & _ & _ & (Q0 & _ & Q2 & _)). cbv zeta in *.
  destruct (static_fields _ _ P1) as (_ & Hn & _).
  destruct (evolve_prewrap_spec Scalar wrap_scenario 0 wrap_scenario_sized)
    as (E0 & _ & E2); [simpl; lia |].
  cbv zeta in E0, E2.
  destruct (forces_no_potential wrap_scenario wrap_scenario_sized)
    as [F0 _]; [reflexivity |].
  destruct wrap_scenario_deviations as [Ht Hr].
  rewrite !nth_error_get by (rewrite ?Q0, ?Q2, Hn; simpl; lia).
  rewrite E0, E2, F0, Ht. unfold dev_theta. rewrite Hr.
  unfold variate, gaussian, get. simpl. unfold counting_stream. simpl.
  split; f_equal; lra.
Qed.

(** C4 at a concrete input: a particle that the step takes out of the box
    and out of the angle range, scalar build. *)
Lemma periodicity_invariant_witness :
  let st := wrap_scenario in
  (sized st /\ 0 < len st /\ (0 < n_parts st)%nat) /\
  ((len (evolve Scalar st) = len st /\
    n_parts (evolve Scalar st) = n_parts st /\
    length (positions0 (evolve Scalar st)) = n_parts st /\
    length (positions1 (evolve Scalar st)) = n_parts st /\
    length (angles (evolve Scalar st)) = n_parts st) /\
   exists x y theta x' y' theta',
     (nth_error (positions0 (evolve_prewrap Scalar st)) 0 = Some x /\
      nth_error (positions1 (evolve_prewrap Scalar st)) 0 = Some y /\
      nth_error (angles (evolve_prewrap Scalar st)) 0 = Some theta) /\
     (nth_error (positions0 (evolve Scalar st)) 0 = Some x' /\
      nth_error (positions1 (evolve Scalar st)) 0 = Some y' /\
      nth_error (angles (evolve Scalar st)) 0 = Some theta') /\
     (x' = pbc x (len st) /\ y' = pbc y (len st) /\
      theta' = pbc theta (2 * PI)) /\
     (0 <= x' < len st /\ 0 <= y' < len st /\ 0 <= theta' < 2 * PI)) /\
  (nth_error (positions0 (evolve_prewrap Scalar st)) 0 = Some (9 / 2) /\
   nth_error (angles (evolve_prewrap Scalar st)) 0 = Some 10 /\
   len st <= 9 / 2 /\ 2 * PI <= 10).
Proof.
  cbv zeta.
  assert (HL : 0 < len wrap_scenario) by (simpl; lra).
  assert (Hn : (0 < n_parts wrap_scenario)%nat) by (simpl; lia).
  destruct wrap_scenario_prewrap as [Hx Ht].
  split; [| split].
  - split; [exact wrap_scenario_sized | split; [exact HL | exact Hn]].
  - exact (periodicity_invariant Scalar wrap_scenario 0%nat
             wrap_scenario_sized HL Hn).
  - split; [exact Hx | split; [exact Ht |]].
    split; [simpl; lra | pose proof PI_4; lra].
Defined.

End WrapScenario.

Module CutoffScenario.

#[local] Existing Instance Grid.impl.


End CutoffScenario.

Module SeedScenario.

#[local] Existing Instance Grid.impl.


End SeedScenario.
